(** * svelte-form-validation: the form-state core, embedded and verified

    The development follows the module that exports [createForm]: the
    builders [createValidatedState] and [createRawState], the validation
    pass ([validate], [clearErrors], [setErrors]), the rebuild
    [updateState], the lookup [getFieldState], the operations
    [validateForm], [updateForm] and [resetForm] of a form, the marking
    of touched fields ([updateFieldTouched], [handleChange]) and what
    [formControl] puts on the class list of a control ([checkValidity]
    and the listeners of change and blur).

    JavaScript values are a tree type; an object is the association list
    of its own enumerable properties in insertion order.  Exceptions are a
    [result]; code that mutates an object in place and may throw half-way
    returns the object as the throw leaves it.  The validation capability
    of yup is a function from the data to a result, and a svelte store is
    the value it holds with a count of the notifications it sent.

    Left out: properties inherited from the prototypes ([toString],
    [constructor], the array methods) and the assignment to [__proto__],
    which sets a prototype; getters, frozen objects, cyclic values, the
    difference between an array hole and [undefined], and the rule that
    [for ... in] lists integer-like keys of an object first; numbers are
    integers (the code only tests them for truthiness).  Of
    the DOM only the class list of a control is there: tag names, the
    registration of the listeners and the subscriptions of [formControl]
    are not. *)

From Stdlib Require Import ZArith String Ascii List Bool Lia DecimalString.
From stdpp Require Import base list strings.

Open Scope string_scope.
Set Warnings "-register-all".

(** ** JavaScript values *)

Inductive value : Type :=
| VUndefined
| VNull
| VBool (b : bool)
| VNumber (n : Z)
| VString (s : string)
| VFunction (props : list (string * value))
| VObject (props : list (string * value))
| VArray (elems : list value) (props : list (string * value)).

(** Entries of [ValidationError.inner]: yup gives a root-level violation
    no path. *)
Record FieldError : Type := mkFieldError {
  path : option string;
  message : string
}.

Inductive exn : Type :=
| TypeError
| RangeError
| SyntaxError
| ValidationError (inner : list FieldError).

Inductive result (A : Type) : Type :=
| Ok (a : A)
| Throw (e : exn).

Arguments Ok {A} a.
Arguments Throw {A} e.

#[global] Instance result_ret : MRet result := fun _ a => Ok a.
#[global] Instance result_bind : MBind result :=
  fun _ _ f m => match m with Ok a => f a | Throw e => Throw e end.

(** Induction over values, with the hypotheses for the nested lists. *)
Section ValueInduction.
Variable P : value -> Prop.
Hypothesis Hundefined : P VUndefined.
Hypothesis Hnull : P VNull.
Hypothesis Hbool : forall b, P (VBool b).
Hypothesis Hnumber : forall n, P (VNumber n).
Hypothesis Hstring : forall s, P (VString s).
Hypothesis Hfunction :
  forall props, Forall (fun kc => P (snd kc)) props -> P (VFunction props).
Hypothesis Hobject :
  forall props, Forall (fun kc => P (snd kc)) props -> P (VObject props).
Hypothesis Harray :
  forall elems props,
    Forall P elems -> Forall (fun kc => P (snd kc)) props ->
    P (VArray elems props).

Fixpoint value_nested_ind (v : value) : P v :=
  let on_props :=
    fix go (l : list (string * value)) : Forall (fun kc => P (snd kc)) l :=
      match l with
      | [] => @Stdlib.Lists.List.Forall_nil _ _
      | kc :: r =>
          @Stdlib.Lists.List.Forall_cons _ (fun kc => P (snd kc)) kc r
            (value_nested_ind (snd kc)) (go r)
      end in
  let on_elems :=
    fix go (l : list value) : Forall P l :=
      match l with
      | [] => @Stdlib.Lists.List.Forall_nil _ _
      | x :: r =>
          @Stdlib.Lists.List.Forall_cons _ P x r (value_nested_ind x) (go r)
      end in
  match v with
  | VUndefined => Hundefined
  | VNull => Hnull
  | VBool b => Hbool b
  | VNumber n => Hnumber n
  | VString s => Hstring s
  | VFunction props => Hfunction props (on_props props)
  | VObject props => Hobject props (on_props props)
  | VArray elems props => Harray elems props (on_elems elems) (on_props props)
  end.
End ValueInduction.

(** ** Property access *)

Module Js.

Definition emptyArray : value := VArray [] [].

(** Truthiness, as tested by [if (x)], [!x] and [x || y]. *)
Definition truthy (v : value) : bool :=
  match v with
  | VUndefined | VNull => false
  | VBool b => b
  | VNumber n => negb (n =? 0)%Z
  | VString s => negb (String.eqb s "")
  | VFunction _ | VObject _ | VArray _ _ => true
  end.

Definition isNullish (v : value) : bool :=
  match v with VUndefined | VNull => true | _ => false end.

Definition typeof (v : value) : string :=
  match v with
  | VUndefined => "undefined"
  | VNull | VObject _ | VArray _ _ => "object"
  | VBool _ => "boolean"
  | VNumber _ => "number"
  | VString _ => "string"
  | VFunction _ => "function"
  end.

Definition isArray (v : value) : bool :=
  match v with VArray _ _ => true | _ => false end.

(** A number used as a property key is its decimal spelling; only the
    canonical spelling of an index addresses an array element. *)
Definition keyOfIndex (i : nat) : string :=
  NilZero.string_of_uint (Nat.to_uint i).

Definition arrayIndex (k : string) : option nat :=
  match NilEmpty.uint_of_string k with
  | Some u =>
      let i := Nat.of_uint u in
      if String.eqb (keyOfIndex i) k then Some i else None
  | None => None
  end.

Fixpoint assoc {A : Type} (k : string) (l : list (string * A)) : option A :=
  match l with
  | [] => None
  | (k', v) :: r => if String.eqb k k' then Some v else assoc k r
  end.

(** Assigning a property keeps its place when it exists and appends it
    otherwise. *)
Fixpoint assocSet {A : Type} (k : string) (v : A) (l : list (string * A))
  : list (string * A) :=
  match l with
  | [] => [(k, v)]
  | (k', v') :: r =>
      if String.eqb k k' then (k, v) :: r else (k', v') :: assocSet k v r
  end.

Definition orUndefined (o : option value) : value :=
  match o with Some v => v | None => VUndefined end.

Fixpoint charAt (s : string) (i : nat) : option value :=
  match s, i with
  | EmptyString, _ => None
  | String c _, O => Some (VString (String c EmptyString))
  | String _ r, S j => charAt r j
  end.

(** [v?.[k]]: the read that does not throw; [undefined] on a nullish [v]. *)
Definition prop (v : value) (k : string) : value :=
  match v with
  | VUndefined | VNull | VBool _ | VNumber _ => VUndefined
  | VString s =>
      match arrayIndex k with
      | Some i => orUndefined (charAt s i)
      | None =>
          if String.eqb k "length"
          then VNumber (Z.of_nat (String.length s)) else VUndefined
      end
  | VFunction props | VObject props => orUndefined (assoc k props)
  | VArray elems props =>
      match arrayIndex k with
      | Some i => orUndefined (elems !! i)
      | None =>
          if String.eqb k "length"
          then VNumber (Z.of_nat (length elems))
          else orUndefined (assoc k props)
      end
  end.

(** [v[k]]: a [TypeError] on [undefined] and [null]. *)
Definition get (v : value) (k : string) : result value :=
  if isNullish v then Throw TypeError else Ok (prop v k).

Definition resize (elems : list value) (n : nat) : list value :=
  take n elems ++ replicate (n - length elems) VUndefined.

(** [v[k] = x] in strict mode (the module is an ES module): a
    [TypeError] on nullish values and on primitives.  Writing past the
    end of an array extends it. *)
Definition set (v : value) (k : string) (x : value) : result value :=
  match v with
  | VUndefined | VNull | VBool _ | VNumber _ | VString _ => Throw TypeError
  | VFunction props => Ok (VFunction (assocSet k x props))
  | VObject props => Ok (VObject (assocSet k x props))
  | VArray elems props =>
      match arrayIndex k with
      | Some i =>
          if decide (i < length elems)
          then Ok (VArray (<[i:=x]> elems) props)
          else Ok (VArray (resize elems i ++ [x]) props)
      | None =>
          if String.eqb k "length" then
            match x with
            | VNumber n =>
                if (0 <=? n)%Z
                then Ok (VArray (resize elems (Z.to_nat n)) props)
                else Throw RangeError
            | _ => Throw RangeError
            end
          else Ok (VArray elems (assocSet k x props))
      end
  end.

Fixpoint indexed (i : nat) (l : list value) : list (string * value) :=
  match l with
  | [] => []
  | x :: r => (keyOfIndex i, x) :: indexed (S i) r
  end.

Fixpoint chars (s : string) : list value :=
  match s with
  | EmptyString => []
  | String c r => VString (String c EmptyString) :: chars r
  end.

(** The own enumerable properties, in [for ... in] order: what
    [Object.assign({}, v)] and [{...v}] copy. *)
Definition ownProps (v : value) : list (string * value) :=
  match v with
  | VUndefined | VNull | VBool _ | VNumber _ => []
  | VString s => indexed 0 (chars s)
  | VFunction props | VObject props => props
  | VArray elems props => indexed 0 elems ++ props
  end.

(** [Object.assign({}, v)] and [{...v}]. *)
Definition spread (v : value) : value := VObject (ownProps v).

(** [a.push(x)]; anything that is not an array has no [push]. *)
Definition push (a : value) (x : value) : result value :=
  match a with
  | VArray elems props => Ok (VArray (elems ++ [x]) props)
  | _ => Throw TypeError
  end.

(** [JSON.parse(JSON.stringify(v))]: properties holding [undefined] or a
    function are left out, such array elements become [null], and the
    named properties of an array are lost. *)
Definition unserializable (v : value) : bool :=
  match v with VUndefined | VFunction _ => true | _ => false end.

Fixpoint json (v : value) : value :=
  match v with
  | VObject props =>
      VObject
        ((fix go (l : list (string * value)) : list (string * value) :=
            match l with
            | [] => []
            | (k, c) :: r =>
                if unserializable c then go r else (k, json c) :: go r
            end) props)
  | VArray elems _ =>
      VArray
        (map (fun e => if unserializable e then VNull else json e) elems) []
  | _ => v
  end.

Definition jsonClone (v : value) : result value :=
  if unserializable v then Throw SyntaxError else Ok (json v).

End Js.

Import Js.

(** ** The schema, as far as the builders inspect it

    [type === 'array'] with its [innerType] (absent for a bare
    [yup.array()]), [type === 'object'] with its [fields], or any other
    type. *)

Inductive Schema : Type :=
| SArray (innerType : option Schema)
| SObject (fields : list (string * Schema))
| SOther.


Definition isEmpty {A : Type} (fields : list (string * A)) : bool :=
  match fields with [] => true | _ => false end.

(** Induction over schemas, through the nested list and option. *)
Section SchemaInduction.
Variable P : Schema -> Prop.
Hypothesis Hbare : P (SArray None).
Hypothesis Harray : forall inner, P inner -> P (SArray (Some inner)).
Hypothesis Hobject :
  forall inner, Forall (fun ks => P (snd ks)) inner -> P (SObject inner).
Hypothesis Hother : P SOther.

End SchemaInduction.

(** [for (let key in entries) state = body(key, entries[key], state)],
    leaving the loop at the first throw. *)
Definition forIn {S : Type} (body : string -> S -> value -> result value) :=
  fix go (entries : list (string * S)) (state : value) : result value :=
    match entries with
    | [] => Ok state
    | (key, s) :: rest =>
        match body key s state with
        | Ok state' => go rest state'
        | Throw e => Throw e
        end
    end.

(** [for ... in] over the elements of an array, keyed by their index. *)
Definition forInElems (body : string -> value -> value -> result value) :=
  fix go (index : nat) (elems : list value) (state : value) : result value :=
    match elems with
    | [] => Ok state
    | x :: rest =>
        match body (keyOfIndex index) x state with
        | Ok state' => go (S index) rest state'
        | Throw e => Throw e
        end
    end.

(** [values.map((value, index) => f(value, index))]. *)
Definition mapIndexed (f : value -> nat -> result value) :=
  fix go (index : nat) (values : list value) : result (list value) :=
    match values with
    | [] => Ok []
    | x :: rest =>
        match f x index with
        | Ok y =>
            match go (S index) rest with
            | Ok ys => Ok (y :: ys)
            | Throw e => Throw e
            end
        | Throw e => Throw e
        end
    end.

(** ** The state-tree builders *)

(** [{ _touched: touched, _errors: [] }] *)
Definition leafState (touched : value) : value :=
  VObject [("_touched", touched); ("_errors", emptyArray)].

(** [state?.[key]?._touched || false] *)
Definition seedTouched (state : value) (key : string) : value :=
  let t := prop (prop state key) "_touched" in
  if truthy t then t else VBool false.

(** [{ ...sub, _errors: [] }] *)
Definition withErrorsReset (sub : value) : value :=
  VObject (assocSet "_errors" emptyArray (ownProps sub)).

(** The body of the loop of [createValidatedState] for one [key] of the
    schema.  For an element of an array the loop over [inner.fields] is
    written out: it runs when [inner] is an object schema and returns its
    [seed] otherwise. *)
Fixpoint validatedField (data : value) (key : string) (s : Schema)
    (state : value) {struct s} : result value :=
  match s with
  | SArray innerType =>
      let dk := prop data key in
      match (if truthy dk then dk else emptyArray) with
      | VArray values _ =>
          elems ← mapIndexed (fun value index =>
                     match innerType with
                     | None => Throw TypeError
                     | Some inner =>
                         prev ← get state key;
                         let seed := spread (prop prev (keyOfIndex index)) in
                         match inner with
                         | SObject fields =>
                             forIn (validatedField value) fields seed
                         | _ => Ok seed
                         end
                     end) 0 values;
          set state key (VArray elems [("_errors", emptyArray)])
      | _ => Throw TypeError
      end
  | SObject fields =>
      if negb (isEmpty fields) then
        dk ← get data key;
        prev ← get state key;
        sub ← forIn (validatedField dk) fields (spread prev);
        set state key (withErrorsReset sub)
      else set state key (leafState (seedTouched state key))
  | SOther => set state key (leafState (seedTouched state key))
  end.

Definition createValidatedState (data : value)
    (schema : list (string * Schema)) (state : value) : result value :=
  forIn (validatedField data) schema state.

(** The body of the loop of [createRawState] for one [key] of the data,
    [build] being [createRawState] itself. *)
Definition rawFieldWith (build : value -> value -> result value)
    (key : string) (child : value) (state : value) : result value :=
  match child with
  | VArray values _ =>
      elems ← mapIndexed (fun value index =>
                 prev ← get state key;
                 build value (spread (prop prev (keyOfIndex index)))) 0 values;
      set state key (VArray elems [("_errors", emptyArray)])
  | VNull | VObject _ =>
      prev ← get state key;
      sub ← build child (spread prev);
      set state key (withErrorsReset sub)
  | _ => set state key (leafState (seedTouched state key))
  end.

(** [createRawState]: the loop runs over the keys of the data, which for
    an array are its indices and for a string those of its characters. *)
Fixpoint createRawState (data : value) (state : value) {struct data}
  : result value :=
  match data with
  | VObject props | VFunction props =>
      forIn (rawFieldWith createRawState) props state
  | VArray elems props =>
      state' ← forInElems (rawFieldWith createRawState) 0 elems state;
      forIn (rawFieldWith createRawState) props state'
  | VString s =>
      forIn (fun key (_ : value) state =>
               set state key (leafState (seedTouched state key)))
        (indexed 0 (chars s)) state
  | _ => Ok state
  end.

Definition rawField : string -> value -> value -> result value :=
  rawFieldWith createRawState.

(** ** The validation pass *)

Definition isMeta (key : string) : bool :=
  String.eqb key "_touched" || String.eqb key "_errors".

Definition isBoolean (v : value) : bool :=
  match v with VBool _ => true | _ => false end.

(** [typeof node?._touched === 'boolean' && !touch ? node._touched : touch] *)
Definition touchPolicy (node : value) (touch : bool) : value :=
  if isBoolean (prop node "_touched") && negb touch
  then prop node "_touched" else VBool touch.

(** The body of the loop of [clearErrors] for one key, [clear] being
    [clearErrors] itself.  In the array branch the policy reads
    [_touched] from the array that [map] has just made. *)
Definition clearFieldWith (clear : value -> value) (touch : bool)
    (child : value) : value :=
  match child with
  | VArray values _ =>
      let elems := map clear values in
      VArray elems
        [("_touched", touchPolicy (VArray elems []) touch);
         ("_errors", emptyArray)]
  | VNull | VObject _ =>
      let cleared := clear child in
      VObject
        (assocSet "_errors" emptyArray
           (assocSet "_touched" (touchPolicy cleared touch)
              (ownProps cleared)))
  | _ => leafState (touchPolicy child touch)
  end.

(** The loop of [clearErrors] over the named properties: [_touched] and
    [_errors] are passed over. *)
Definition clearFieldsWith (clear : value -> value) (touch : bool)
    (props : list (string * value)) : list (string * value) :=
  map (fun kc : string * value =>
         (fst kc, if isMeta (fst kc) then snd kc
                  else clearFieldWith clear touch (snd kc))) props.

(** [clearErrors(data, touch, true, update)]: the loop assigns every key
    of [data] in place and returns [data].  On a string the first
    assignment throws, the throw is caught and the string comes back as it
    was. *)
Fixpoint clearErrors (touch : bool) (data : value) {struct data} : value :=
  match data with
  | VObject props =>
      VObject (clearFieldsWith (clearErrors touch) touch props)
  | VFunction props =>
      VFunction (clearFieldsWith (clearErrors touch) touch props)
  | VArray elems props =>
      VArray (map (clearFieldWith (clearErrors touch) touch) elems)
        (clearFieldsWith (clearErrors touch) touch props)
  | _ => data
  end.

Definition clearField (touch : bool) : value -> value :=
  clearFieldWith (clearErrors touch) touch.

Definition clearFields (touch : bool)
  : list (string * value) -> list (string * value) :=
  clearFieldsWith (clearErrors touch) touch.

(** A svelte [writable]: the object it holds, shared by reference with
    whoever called [get], and how many times its subscribers were told. *)
Record Writable : Type := mkWritable {
  contents : value;
  published : nat
}.

Module Store.

Definition primitiveEq (a b : value) : bool :=
  match a, b with
  | VUndefined, VUndefined | VNull, VNull => true
  | VBool x, VBool y => Bool.eqb x y
  | VNumber x, VNumber y => (x =? y)%Z
  | VString x, VString y => String.eqb x y
  | _, _ => false
  end.

(** svelte's [safe_not_equal]: an object or a function always counts as
    changed. *)
Definition safeNotEqual (a b : value) : bool :=
  match a with
  | VFunction _ | VObject _ | VArray _ _ => true
  | _ => negb (primitiveEq a b)
  end.

Definition set (store : Writable) (v : value) : Writable :=
  if safeNotEqual (contents store) v
  then {| contents := v; published := S (published store) |}
  else store.

(** A mutation of the held object in place: no subscriber is told. *)
Definition mutated (store : Writable) (v : value) : Writable :=
  {| contents := v; published := published store |}.

End Store.

(** [clearErrors(state, touch)] on the store, as [validate] calls it. *)
Definition clearErrorsStore (state : Writable) (touch : bool) : Writable :=
  match contents state with
  | VString (String _ _) => state
  | data => Store.set state (clearErrors touch data)
  end.

(** [path.match(/[^.[\]]+/g) || []]: the maximal runs of characters other
    than [.], [[] and []]. *)
Definition isSeparator (c : ascii) : bool :=
  Ascii.eqb c "." || Ascii.eqb c "[" || Ascii.eqb c "]".

Fixpoint segmentsFrom (s : string) (current : string) : list string :=
  match s with
  | EmptyString => if String.eqb current "" then [] else [current]
  | String c rest =>
      if isSeparator c then
        if String.eqb current "" then segmentsFrom rest ""
        else current :: segmentsFrom rest ""
      else segmentsFrom rest (current ++ String c EmptyString)
  end.

Definition segmentsOf (path : string) : list string := segmentsFrom path "".

(** [segments[segments.length - 1]], which as a key is ["undefined"] when
    there is no segment. *)
Definition lastSegment (segments : list string) : string :=
  List.last segments "undefined".

(** How the body of the loop over [mainError.inner] ends. *)
Inductive signal : Type :=
| Next
| Break
| Thrown (e : exn).

(** A child reached through a reference is written back under its key
    once changed; a primitive cannot have changed. *)
Definition storeBack (obj : value) (key : string) (child : value) : value :=
  match child with
  | VFunction _ | VObject _ | VArray _ _ =>
      match set obj key child with Ok obj' => obj' | Throw _ => obj end
  | _ => obj
  end.

Notation "'attempt' x ':=' e 'leaving' s 'in' k" :=
  (match e with Ok x => k | Throw err => (s, Thrown err) end)
  (at level 10, x name, e at level 100, s at level 100, k at level 200,
   only parsing).

(** The statements of [setErrors] that follow the walk, on the object
    [obj] the walk ended at. *)
Definition writeError (key : string) (message : string) (touchInvalid : bool)
    (obj : value) : value * signal :=
  attempt node := get obj key leaving obj in
  attempt obj :=
    (if truthy node then Ok obj
     else set obj key
            (VObject [("touched", VBool false); ("_errors", emptyArray)]))
    leaving obj in
  let node := prop obj key in
  attempt node :=
    (if truthy (prop node "_errors") then Ok node
     else set node "_errors" emptyArray)
    leaving obj in
  let obj := storeBack obj key node in
  attempt errors := push (prop node "_errors") (VString message)
    leaving obj in
  let node := storeBack node "_errors" errors in
  let obj := storeBack obj key node in
  attempt node := set node "_touched" (touchPolicy node touchInvalid)
    leaving obj in
  (storeBack obj key node, Next).

(** The walk over [objSegments]: [Break] when a segment is missing. *)
Fixpoint walk (objSegments : list string)
    (act : value -> value * signal) (obj : value) : value * signal :=
  match objSegments with
  | [] => act obj
  | segment :: rest =>
      attempt child := get obj segment leaving obj in
      if truthy child then
        let (child', s) := walk rest act child in
        (storeBack obj segment child', s)
      else (obj, Break)
  end.

(** The body of the loop of [setErrors] for one entry of
    [mainError.inner]. *)
Definition applyError (touchInvalid : bool) (error : FieldError)
    (_state : value) : value * signal :=
  match path error with
  | None => (_state, Thrown TypeError)
  | Some p =>
      let segments := segmentsOf p in
      let act := writeError (lastSegment segments) (message error)
                   touchInvalid in
      if decide (1 < length segments)
      then walk (removelast segments) act _state
      else act _state
  end.

(** [for (let error of inner) { ... }]: the [break] after a failed walk
    leaves this loop. *)
Fixpoint applyErrors (touchInvalid : bool) (inner : list FieldError)
    (_state : value) : value * option exn :=
  match inner with
  | [] => (_state, None)
  | error :: rest =>
      match applyError touchInvalid error _state with
      | (_state', Next) => applyErrors touchInvalid rest _state'
      | (_state', Break) => (_state', None)
      | (_state', Thrown e) => (_state', Some e)
      end
  end.

(** [mainError.inner], iterated by [for ... of]: anything but a
    [ValidationError] has none, and iterating [undefined] throws. *)
Definition innerOf (mainError : exn) : result (list FieldError) :=
  match mainError with
  | ValidationError inner => Ok inner
  | _ => Throw TypeError
  end.

(** [setErrors]: everything happens on the object the store holds;
    [state.set] is reached only when nothing threw. *)
Definition setErrors (state : Writable) (mainError : exn)
    (touchValid touchInvalid : bool) : Writable :=
  let _state := clearErrors touchValid (contents state) in
  match innerOf mainError with
  | Throw _ => Store.mutated state _state
  | Ok inner =>
      match applyErrors touchInvalid inner _state with
      | (_state', None) => Store.set (Store.mutated state _state') _state'
      | (_state', Some _) => Store.mutated state _state'
      end
  end.

(** ** The form *)

(** A yup object schema: the [fields] the builders walk and the
    validation capability, which returns or throws. *)
Record ObjectSchema : Type := mkObjectSchema {
  fields : list (string * Schema);
  validateSync : value -> result value
}.

(** [validate]: calling [validateSync] on an absent schema throws a
    [TypeError], which the [catch] hands to [setErrors] like any other. *)
Definition validate (form : Writable) (schema : option ObjectSchema)
    (state : Writable) (touchValid touchInvalid : bool) : bool * Writable :=
  match schema with
  | None => (false, setErrors state TypeError touchValid touchInvalid)
  | Some sch =>
      match validateSync sch (contents form) with
      | Ok _ => (true, clearErrorsStore state touchValid)
      | Throw error => (false, setErrors state error touchValid touchInvalid)
      end
  end.

Definition createState (values : value) (state : Writable)
    (validationSchema : option ObjectSchema) : result Writable :=
  match validationSchema with
  | Some sch =>
      st ← createValidatedState values (fields sch) (VObject []);
      Ok (Store.set state st)
  | None =>
      st ← createRawState values (VObject []);
      Ok (Store.set state st)
  end.

Definition updateState (form : Writable)
    (validationSchema : option ObjectSchema) (state : Writable)
  : result Writable :=
  previous ← jsonClone (contents state);
  match validationSchema with
  | Some sch =>
      st ← createValidatedState (contents form) (fields sch) previous;
      Ok (Store.set state st)
  | None =>
      st ← createRawState (contents form) previous;
      Ok (Store.set state st)
  end.

(** [getFieldState(name, $state)] *)
Fixpoint descend (objSegments : list string) (obj : value)
  : result (option value) :=
  match objSegments with
  | [] => Ok (Some obj)
  | segment :: rest =>
      child ← get obj segment;
      if truthy child then descend rest child else Ok None
  end.

Definition getFieldState (name : string) (state : value) : result value :=
  let segments := segmentsOf name in
  found ← descend (removelast segments) state;
  match found with
  | None => Ok VNull
  | Some obj =>
      node ← get obj (lastSegment segments);
      Ok (if truthy node then node else VNull)
  end.

Record FormConfigInput : Type := mkFormConfigInput {
  initialValues : value;
  validationSchema : option ObjectSchema;
  cssEnabled : option bool;
  validateOnChange : option bool;
  validateOnBlur : option bool
}.

Inductive Highlight : Type := none | errors | all.

(** The stores a form owns. *)
Record Form : Type := mkForm {
  values : Writable;
  state : Writable;
  isValid : bool;
  isTouched : bool;
  cssValidator : nat;
  validationReset : nat
}.

(** What [createState(values, ...)] receives in [createForm]: the store
    itself, an object holding three functions. *)
Definition storeObject : value :=
  VObject [("set", VFunction []); ("update", VFunction []);
           ("subscribe", VFunction [])].

Section Operations.

Variable config : FormConfigInput.

Definition enabled : bool := default true (cssEnabled config).
Definition onChange : bool := default true (validateOnChange config).

Definition validateForm (highlight : Highlight) (form : Form) : Form :=
  let touchValid := match highlight with all => true | _ => false end in
  let touchInvalid := match highlight with none => false | _ => true end in
  let (ok, state') :=
    validate (values form) (validationSchema config) (state form)
      touchValid touchInvalid in
  {| values := values form;
     state := state';
     isValid := ok;
     isTouched := isTouched form;
     cssValidator :=
       if enabled && negb onChange
          && match highlight with none => false | _ => true end
       then S (cssValidator form) else cssValidator form;
     validationReset := validationReset form |}.

(** The subscription [createForm] puts on the values store. *)
Definition onValues (form : Form) : Form :=
  match validationSchema config with
  | Some _ => validateForm none form
  | None => form
  end.

(** [values.set(v)]: the subscribers run when svelte sees a change. *)
Definition setValues (v : value) (form : Form) : Form :=
  if Store.safeNotEqual (contents (values form)) v then
    onValues {| values := Store.set (values form) v;
                state := state form;
                isValid := isValid form;
                isTouched := isTouched form;
                cssValidator := cssValidator form;
                validationReset := validationReset form |}
  else form.

(** [resetForm(newValue)]: the form as the call leaves it, and what
    [createState] threw if it did. *)
Definition resetForm (newValue : value) (form : Form) : Form * option exn :=
  let form := if truthy newValue then setValues newValue form else form in
  let emptied := Store.set (state form) (VObject []) in
  match createState (contents (values form)) emptied
          (validationSchema config) with
  | Ok state' =>
      ({| values := values form;
          state := state';
          isValid := false;
          isTouched := false;
          cssValidator := cssValidator form;
          validationReset := S (validationReset form) |}, None)
  | Throw e =>
      ({| values := values form;
          state := emptied;
          isValid := false;
          isTouched := false;
          cssValidator := cssValidator form;
          validationReset := validationReset form |}, Some e)
  end.

(** [updateForm()] *)
Definition updateForm (form : Form) : result Form :=
  state' ← updateState (values form) (validationSchema config) (state form);
  Ok (validateForm none
        {| values := values form;
           state := state';
           isValid := isValid form;
           isTouched := isTouched form;
           cssValidator := cssValidator form;
           validationReset := validationReset form |}).

(** [createForm(config)]: the state is built from the store object, and
    subscribing to the values store runs the subscription once. *)
Definition createForm : result Form :=
  state' ← createState storeObject (mkWritable (VObject []) 0)
             (validationSchema config);
  Ok (onValues
        {| values := mkWritable (initialValues config) 0;
           state := state';
           isValid := false;
           isTouched := false;
           cssValidator := 0;
           validationReset := 0 |}).

End Operations.

(** ** Vocabulary of the properties *)

(** [node._errors] holds at least one message. *)
Definition hasErrors (node : value) : bool :=
  match prop node "_errors" with
  | VArray (_ :: _) _ => true
  | _ => false
  end.

(** The messages of the node at [name], as [getFieldState] finds it. *)
Definition errorsAt (name : string) (state : value) : result value :=
  node ← getFieldState name state;
  Ok (prop node "_errors").

Definition touchedAt (name : string) (state : value) : result value :=
  node ← getFieldState name state;
  Ok (prop node "_touched").

(** A leaf has no child: all its keys are [_touched] or [_errors]. *)
Definition isLeaf (node : value) : bool :=
  match node with
  | VObject props => forallb (fun kc => isMeta (fst kc)) props
  | _ => false
  end.

(** Some leaf of the tree has a non-empty errors list. *)
Fixpoint someLeafHasErrors (node : value) : bool :=
  let inProps :=
    fix go (l : list (string * value)) : bool :=
      match l with
      | [] => false
      | kc :: r =>
          (negb (isMeta (fst kc)) && someLeafHasErrors (snd kc)) || go r
      end in
  (isLeaf node && hasErrors node)
  || match node with
     | VObject props | VFunction props => inProps props
     | VArray elems props => existsb someLeafHasErrors elems || inProps props
     | _ => false
     end.


(** The named properties of an array are its empty [_errors] alone. *)
Definition errorsOnly (props : list (string * value)) : bool :=
  match props with
  | [(k, VArray [] [])] => String.eqb k "_errors"
  | _ => false
  end.


(** The errors list of every field is empty: every value under a key
    other than [_touched] and [_errors], as deep as records and the
    elements of arrays go. *)
Definition clearedField (f : value -> bool) (child : value) : bool :=
  match prop child "_errors" with
  | VArray [] [] =>
      match child with
      | VArray elems _ => forallb f elems
      | _ => f child
      end
  | _ => false
  end.

Definition clearedEntry (f : value -> bool) (kc : string * value) : bool :=
  isMeta (fst kc) || clearedField f (snd kc).

Fixpoint fieldsCleared (node : value) : bool :=
  match node with
  | VObject props | VFunction props =>
      forallb (clearedEntry fieldsCleared) props
  | VArray elems props =>
      forallb (clearedField fieldsCleared) elems
      && forallb (clearedEntry fieldsCleared) props
  | _ => true
  end.

(** Shapes: what the data tree and the metadata tree are compared by. *)
Inductive shape : Type :=
| Leaf
| Rec (entries : list (string * shape))
| Seq (items : list shape).


(** In the tree a builder returns, a leaf is the node with a [_touched];
    a container lists its children next to its own [_errors]. *)
Definition hasTouched (props : list (string * value)) : bool :=
  existsb (fun kc => String.eqb (fst kc) "_touched") props.

Definition childShapes (f : value -> shape) :=
  fix go (l : list (string * value)) : list (string * shape) :=
    match l with
    | [] => []
    | kc :: r =>
        if isMeta (fst kc) then go r else (fst kc, f (snd kc)) :: go r
    end.





(** A JavaScript object has each property name once. *)
Fixpoint distinctKeys {A : Type} (l : list (string * A)) : bool :=
  match l with
  | [] => true
  | (k, _) :: r =>
      negb (existsb (fun kc => String.eqb k (fst kc)) r) && distinctKeys r
  end.






(** The tree a builder makes from nothing.  A leaf is exactly
    [{ _touched: false, _errors: [] }]; a record under a field name holds
    its fields and then its own [_errors: []], and no [_touched]; an array
    under a field name holds [_errors: []] and its elements, which are
    records of fields; such a record, like the root, has no [_touched]
    and no [_errors] of its own. *)
Definition blankLeaf (node : value) : bool :=
  match node with
  | VObject [(k1, VBool false); (k2, VArray [] [])] =>
      String.eqb k1 "_touched" && String.eqb k2 "_errors"
  | _ => false
  end.

Definition blankEntry (f : value -> bool) (kc : string * value) : bool :=
  negb (isMeta (fst kc)) && f (snd kc).

Definition containerEntry (f : value -> bool) (kc : string * value) : bool :=
  if String.eqb (fst kc) "_errors"
  then match snd kc with VArray [] [] => true | _ => false end
  else negb (String.eqb (fst kc) "_touched") && f (snd kc).

Definition recordOf (f : value -> bool) (node : value) : bool :=
  match node with
  | VObject props => forallb (blankEntry f) props
  | _ => false
  end.

Fixpoint blankField (node : value) : bool :=
  match node with
  | VObject props =>
      blankLeaf node
      || (existsb (fun kc => String.eqb (fst kc) "_errors") props
          && forallb (containerEntry blankField) props)
  | VArray elems props =>
      errorsOnly props && forallb (recordOf blankField) elems
  | _ => false
  end.

Definition blankFields : list (string * value) -> bool :=
  forallb (blankEntry blankField).







(** The tree after every entry of [inner] has been applied, when none of
    them left the loop or threw. *)
Fixpoint appliedAll (touchInvalid : bool) (inner : list FieldError)
    (_state : value) : option value :=
  match inner with
  | [] => Some _state
  | error :: rest =>
      match applyError touchInvalid error _state with
      | (_state', Next) => appliedAll touchInvalid rest _state'
      | _ => None
      end
  end.



(** ** Invariants of the loops *)






Definition clearedBy (touch : bool) (c : value) : Prop :=
  fieldsCleared (clearErrors touch c) = true
  /\ clearedField fieldsCleared (clearField touch c) = true.








(** ** Forms used in the statements below *)

Module Demo.

Definition violation (p message : string) : FieldError :=
  mkFieldError (Some p) message.

(** [{ title: string().required(), users: array().of(object({ name })) }] *)
Definition blogFields : list (string * Schema) :=
  [("title", SOther);
   ("users", SArray (Some (SObject [("name", SOther)])))].

Definition noUsers : value :=
  VObject [("title", VString ""); ("users", VArray [] [])].

Definition staleUser : FieldError :=
  violation "users[0].name" "users[0].name is a required field".

Definition missingTitle : FieldError :=
  violation "title" "title is a required field".

(** A violation of the root has no path. *)
Definition rootViolation : FieldError :=
  mkFieldError None "this is invalid".

(** [{ users: array().of(object({ name: string().required() })) }], with
    the validation capability that goes with it. *)
Definition usersFields : list (string * Schema) :=
  [("users", SArray (Some (SObject [("name", SOther)])))].

Definition requireNames (data : value) : result value :=
  match prop (prop (prop data "users") "0") "name" with
  | VString "" => Throw (ValidationError [staleUser])
  | _ => Ok data
  end.

Definition usersForm (initial : value) : FormConfigInput :=
  mkFormConfigInput initial
    (Some (mkObjectSchema usersFields requireNames)) None None None.

Definition oneUnnamedUser : value :=
  VObject [("users", VArray [VObject [("name", VString "")]] [])].

(** [{ users: array().min(1) }]: the violation is the array's own. *)
Definition requireOneUser (data : value) : result value :=
  match prop data "users" with
  | VArray (_ :: _) _ => Ok data
  | _ =>
      Throw (ValidationError
               [violation "users" "users field must have at least 1 items"])
  end.

Definition minUsersForm : FormConfigInput :=
  mkFormConfigInput (VObject [("users", VArray [] [])])
    (Some (mkObjectSchema usersFields requireOneUser)) None None None.

(** A schema that accepts everything. *)
Definition lenientForm : FormConfigInput :=
  mkFormConfigInput (VObject [("users", VArray [] [])])
    (Some (mkObjectSchema usersFields (fun data => Ok data)))
    None None None.

(** [{ tags: array().of(string().required()) }] *)
Definition tagsFields : list (string * Schema) :=
  [("tags", SArray (Some SOther))].

Definition requireTags (data : value) : result value :=
  match prop (prop data "tags") "0" with
  | VString "" =>
      Throw (ValidationError
               [violation "tags[0]" "tags[0] is a required field"])
  | _ => Ok data
  end.

Definition tagsForm : FormConfigInput :=
  mkFormConfigInput (VObject [("tags", VArray [VString ""] [])])
    (Some (mkObjectSchema tagsFields requireTags)) None None None.

(** [{ address: object({ geo: object({ lat: number() }) }) }] *)
Definition nestedFields : list (string * Schema) :=
  [("address", SObject [("geo", SObject [("lat", SOther)])])].

Definition nestedForm : FormConfigInput :=
  mkFormConfigInput
    (VObject [("address", VObject [("geo", VObject [("lat", VNumber 1)])])])
    (Some (mkObjectSchema nestedFields (fun data => Ok data)))
    None None None.

Definition messages (l : list string) : value := VArray (map VString l) [].

(** The tree the builder returns for [noUsers] under [blogFields], and
    that tree once the message for [title] has been appended. *)
Definition blogTree : value :=
  VObject [("title", leafState (VBool false));
           ("users", VArray [] [("_errors", emptyArray)])].

Definition titleFlagged : value :=
  VObject [("title",
            VObject [("_touched", VBool false);
                     ("_errors", messages ["title is a required field"])]);
           ("users",
            VArray [] [("_touched", VBool false);
                       ("_errors", emptyArray)])].

End Demo.

Import Demo.

(** ** Marking a field touched *)

(** The statements of [updateFieldTouched] that follow the walk, on the
    object [obj] the walk ended at. *)
Definition markTouched (key : string) (obj : value) : value * signal :=
  attempt node := get obj key leaving obj in
  if truthy node then
    attempt node := set node "_touched" (VBool true) leaving obj in
    (storeBack obj key node, Next)
  else (obj, Next).

(** [updateFieldTouched(name, state)]: the store as the call leaves it,
    and what it threw if it did; [state.set] is not reached on a throw. *)
Definition updateFieldTouched (name : string) (state : Writable)
  : Writable * option exn :=
  let segments := segmentsOf name in
  let act := markTouched (lastSegment segments) in
  let (_state, s) :=
    if decide (1 < length segments)
    then walk (removelast segments) act (contents state)
    else act (contents state) in
  match s with
  | Thrown e => (Store.mutated state _state, Some e)
  | _ => (Store.set (Store.mutated state _state) _state, None)
  end.

(** [handleChange(event)], [target] being the name of [event.target]
    (empty when it has none) or nothing when the event has no target. *)
Definition handleChange (target : option string) (form : Form)
  : Form * option exn :=
  match target with
  | None => (form, Some TypeError)
  | Some name =>
      let (state', thrown) :=
        if String.eqb name "" then (state form, None)
        else updateFieldTouched name (state form) in
      ({| values := values form;
          state := state';
          isValid := isValid form;
          isTouched := match thrown with
                       | None => true
                       | Some _ => isTouched form
                       end;
          cssValidator := cssValidator form;
          validationReset := validationReset form |}, thrown)
  end.

(** [setTouched(state)] *)
Definition setTouched (touched : bool) (form : Form) : Form :=
  {| values := values form;
     state := state form;
     isValid := isValid form;
     isTouched := touched;
     cssValidator := cssValidator form;
     validationReset := validationReset form |}.

(** ** Reflecting validity on a control *)

(** [node.classList]: an ordered set of tokens; [add] and [remove] throw
    on a token that is empty or holds ASCII whitespace. *)
Module ClassList.

Definition isSpace (c : ascii) : bool :=
  let n := nat_of_ascii c in
  Nat.eqb n 9 || Nat.eqb n 10 || Nat.eqb n 12 || Nat.eqb n 13 || Nat.eqb n 32.

Fixpoint hasSpace (token : string) : bool :=
  match token with
  | EmptyString => false
  | String c rest => isSpace c || hasSpace rest
  end.

Definition validToken (token : string) : bool :=
  negb (String.eqb token "") && negb (hasSpace token).

Definition contains (token : string) (classes : list string) : bool :=
  existsb (String.eqb token) classes.

Definition remove (token : string) (classes : list string)
  : option (list string) :=
  if validToken token
  then Some (List.filter (fun c => negb (String.eqb token c)) classes)
  else None.

Definition add (token : string) (classes : list string)
  : option (list string) :=
  if validToken token
  then Some (if contains token classes then classes
             else (classes ++ [token])%list)
  else None.

End ClassList.

(** The classes of the merged [css] configuration of a form; its
    [enabled] is [enabled] of the form's configuration. *)
Module Css.

Record classes : Type := mkClasses {
  validClass : string;
  invalidClass : string;
  useValid : bool;
  useInvalid : bool
}.

(** The defaults [createForm] starts from. *)
Definition defaults : classes :=
  {| validClass := "is-valid";
     invalidClass := "is-invalid";
     useValid := true;
     useInvalid := true |}.

End Css.

(** [checkValidity($state)] of the control named [name]: the class list
    as the call leaves it.  The function is [async], so a throw inside it
    rejects a promise nobody awaits and the caller goes on. *)
Definition checkValidity (css : Css.classes) (name : string) (state : value)
    (classList : list string) : list string :=
  if String.eqb name "" then classList
  else
    match getFieldState name state with
    | Throw _ => classList
    | Ok fieldState =>
        let touched := truthy (prop fieldState "_touched") in
        let errorsLength :=
          truthy (prop (prop fieldState "_errors") "length") in
        let invalid := touched && errorsLength in
        let valid := touched && negb errorsLength in
        match ClassList.remove (Css.validClass css) classList with
        | None => classList
        | Some classList =>
            match ClassList.remove (Css.invalidClass css) classList with
            | None => classList
            | Some classList =>
                if invalid then
                  if Css.useInvalid css then
                    match ClassList.add (Css.invalidClass css) classList with
                    | Some classList' => classList'
                    | None => classList
                    end
                  else classList
                else if valid then
                  if Css.useValid css then
                    match ClassList.add (Css.validClass css) classList with
                    | Some classList' => classList'
                    | None => classList
                    end
                  else classList
                else classList
            end
        end
    end.

(** [changeListener(event)] and [blurListener(event)] of the control
    named [name], [gate] being [validateOnChange] or [validateOnBlur]:
    the form and the class list of the control as the listener leaves
    them.  When [handleChange] throws the listener stops there. *)
Definition listener (gate : bool) (config : FormConfigInput)
    (css : Css.classes) (name : string) (target : option string)
    (form : Form) (classList : list string) : Form * list string :=
  if gate then
    match handleChange target form with
    | (form', Some _) => (form', classList)
    | (form', None) =>
        (form',
         if enabled config
         then checkValidity css name (contents (state form')) classList
         else classList)
    end
  else (form, classList).

Definition changeListener (config : FormConfigInput) :=
  listener (onChange config) config.

Definition blurListener (config : FormConfigInput) :=
  listener (default true (validateOnBlur config)) config.

(** ** Vocabulary of the further properties *)

(** A segment as [segmentsOf] returns them: not empty, no separator. *)
Fixpoint noSeparator (s : string) : bool :=
  match s with
  | EmptyString => true
  | String c rest => negb (isSeparator c) && noSeparator rest
  end.

Definition plainSegment (s : string) : bool :=
  negb (String.eqb s "") && noSeparator s.

(** The dotted spelling of a list of segments. *)
Definition dotted (segments : list string) : string :=
  String.concat "." segments.

(** Objects, arrays and functions: the values that hold properties. *)
Definition objectLike (v : value) : bool :=
  match v with
  | VFunction _ | VObject _ | VArray _ _ => true
  | _ => false
  end.

(** Every field carries a raised [_touched]: every value under a key
    other than [_touched] and [_errors], as deep as records and the
    elements of arrays go. *)
Definition touchedField (f : value -> bool) (child : value) : bool :=
  match prop child "_touched" with
  | VBool true =>
      match child with
      | VArray elems _ => forallb f elems
      | _ => f child
      end
  | _ => false
  end.

Definition touchedEntry (f : value -> bool) (kc : string * value) : bool :=
  isMeta (fst kc) || touchedField f (snd kc).

Fixpoint fieldsTouched (node : value) : bool :=
  match node with
  | VObject props | VFunction props =>
      forallb (touchedEntry fieldsTouched) props
  | VArray elems props =>
      forallb (touchedField fieldsTouched) elems
      && forallb (touchedEntry fieldsTouched) props
  | _ => true
  end.

(** [createRawState] of [data] over a record returns a record. *)
Definition rawTotal (data : value) : Prop :=
  forall props, exists props',
    createRawState data (VObject props) = Ok (VObject props').

(** Clearing a value that has been cleared changes nothing, be it a tree
    or the value under a key. *)
Definition clearedTwice (touch : bool) (c : value) : Prop :=
  clearErrors touch (clearErrors touch c) = clearErrors touch c
  /\ clearField touch (clearField touch c) = clearField touch c.

(** Clearing with [touch] set raises every flag, in a tree and in the
    value under a key. *)
Definition touchedBy (c : value) : Prop :=
  fieldsTouched (clearErrors true c) = true
  /\ touchedField fieldsTouched (clearField true c) = true.

(** ** More forms for the statements *)

(** A form without a schema. *)
Definition plainConfig : FormConfigInput :=
  mkFormConfigInput noUsers None None None None.

(** A form of [lenientForm] whose tree still holds a message. *)
Definition flaggedForm : Form :=
  {| values := mkWritable (initialValues lenientForm) 0;
     state := mkWritable titleFlagged 1;
     isValid := false;
     isTouched := false;
     cssValidator := 0;
     validationReset := 0 |}.

(** A lenient schema over [blogFields], and a tree whose [title] has been
    touched and flagged. *)
Definition blogSchema : ObjectSchema :=
  mkObjectSchema blogFields (fun data => Ok data).

Definition titleTouched : value :=
  VObject [("title",
            VObject [("_touched", VBool true);
                     ("_errors", messages ["title is a required field"])]);
           ("users", VArray [] [("_errors", emptyArray)])].

(** A form of [lenientForm] whose [title] has been touched. *)
Definition touchedForm : Form :=
  {| values := mkWritable (initialValues lenientForm) 0;
     state := mkWritable titleTouched 1;
     isValid := false;
     isTouched := true;
     cssValidator := 0;
     validationReset := 0 |}.



(** The path leads through records only, the node it ends at included,
    and names no [_touched] or [_errors] on its way. *)
Fixpoint recordsAlong (segments : list string) (node : value) : bool :=
  match node with
  | VObject props =>
      match segments with
      | [] => true
      | key :: rest =>
          negb (isMeta key)
          && match assoc key props with
             | Some child => recordsAlong rest child
             | None => false
             end
      end
  | _ => false
  end.

Definition throughRecords (name : string) (state : value) : bool :=
  match segmentsOf name with
  | [] => false
  | segments => recordsAlong segments state
  end.

(** The entry [writeError] makes where there is none. *)
Definition madeEntry : value :=
  VObject [("touched", VBool false); ("_errors", emptyArray)].

(** What [writeError] leaves of the entry it made. *)
Definition madeEntryWith (msg : string) (touchInvalid : bool) : value :=
  VObject [("touched", VBool false);
           ("_errors", VArray [VString msg] []);
           ("_touched", VBool touchInvalid)].

(** The classes a control wears for the field state [node]. *)
Definition wearsInvalid (css : Css.classes) (node : value) : bool :=
  Css.useInvalid css
  && (truthy (prop node "_touched")
      && truthy (prop (prop node "_errors") "length")).

Definition wearsValid (css : Css.classes) (node : value) : bool :=
  Css.useValid css
  && (truthy (prop node "_touched")
      && negb (truthy (prop (prop node "_errors") "length"))).

(** A loop whose rounds each assign their key on a record: the keys it
    does not name keep their value, and every key it names holds what a
    round assigned. *)
Definition assigns {S : Type} (Q : value -> Prop)
    (body : string -> S -> value -> result value) : Prop :=
  forall key s props state',
    body key s (VObject props) = Ok state' ->
    exists v, state' = VObject (assocSet key v props) /\ Q v.

(** A node whose list of errors is empty. *)
Definition errorsEmpty (v : value) : Prop := prop v "_errors" = emptyArray.

(** The lookup of [getFieldState] along a path through records. *)
Fixpoint nodeAlong (segments : list string) (node : value) : value :=
  match segments with
  | [] => node
  | key :: rest => nodeAlong rest (prop node key)
  end.

(** * Proofs *)

(** ** Loops *)




Lemma bind_Ok {A B : Type} (m : result A) (f : A -> result B) b :
  (x ← m; f x) = Ok b -> exists a, m = Ok a /\ f a = Ok b.
Proof. destruct m as [a|]; simpl; [eauto|discriminate]. Qed.

(** ** Pristine trees *)









Lemma arrayIndex_meta : arrayIndex "_errors" = None /\ arrayIndex "_touched" = None.
Proof. split; reflexivity. Qed.











Lemma createRawState_unfold data st :
  createRawState data st =
  match data with
  | VObject props | VFunction props => forIn rawField props st
  | VArray elems props =>
      st' ← forInElems rawField 0 elems st;
      forIn rawField props st'
  | VString s =>
      forIn (fun key (_ : value) state =>
               set state key (leafState (seedTouched state key)))
        (indexed 0 (chars s)) st
  | _ => Ok st
  end.
Proof. destruct data; reflexivity. Qed.







(** ** The clearing pass *)

Lemma clearErrors_unfold touch data :
  clearErrors touch data =
  match data with
  | VObject props => VObject (clearFields touch props)
  | VFunction props => VFunction (clearFields touch props)
  | VArray elems props =>
      VArray (map (clearField touch) elems) (clearFields touch props)
  | _ => data
  end.
Proof. destruct data; reflexivity. Qed.

Lemma assoc_assocSet_eq {A : Type} k (v : A) l : assoc k (assocSet k v l) = Some v.
Proof.
  induction l as [|[k' v'] r IH]; simpl.
  - rewrite String.eqb_refl. reflexivity.
  - destruct (String.eqb k k') eqn:E; simpl.
    + rewrite String.eqb_refl. reflexivity.
    + rewrite E. exact IH.
Qed.

Lemma clearedEntries_assocSet f k v l :
  isMeta k = true ->
  forallb (clearedEntry f) l = true ->
  forallb (clearedEntry f) (assocSet k v l) = true.
Proof.
  intros Hk. induction l as [|[k' v'] r IH]; simpl; intros H.
  - unfold clearedEntry. simpl. rewrite Hk. reflexivity.
  - apply andb_prop in H as [H1 H2].
    destruct (String.eqb k k'); simpl.
    + unfold clearedEntry at 1. simpl. rewrite Hk, H2. reflexivity.
    + rewrite H1, IH; auto.
Qed.

Lemma clearFields_cleared touch props :
  Forall (fun kc => clearedBy touch (snd kc)) props ->
  forallb (clearedEntry fieldsCleared) (clearFields touch props) = true.
Proof.
  induction 1 as [|[k c] r [_ Hc] _ IH]; simpl; auto.
  rewrite IH, andb_true_r. unfold clearedEntry. simpl.
  destruct (isMeta k) eqn:E; simpl; [reflexivity|exact Hc].
Qed.

Lemma clearedField_leaf t :
  clearedField fieldsCleared (leafState t) = true.
Proof. reflexivity. Qed.

Lemma clearedField_object touch c :
  (c = VNull \/ exists p, c = VObject p) ->
  fieldsCleared (clearErrors touch c) = true ->
  clearedField fieldsCleared (clearField touch c) = true.
Proof.
  intros Hc H.
  assert (Hown : forallb (clearedEntry fieldsCleared)
                   (ownProps (clearErrors touch c)) = true).
  { destruct Hc as [->|[p ->]]; [reflexivity|exact H]. }
  assert (Hnode : clearField touch c =
            VObject (assocSet "_errors" emptyArray
                       (assocSet "_touched"
                          (touchPolicy (clearErrors touch c) touch)
                          (ownProps (clearErrors touch c))))).
  { destruct Hc as [->|[p ->]]; reflexivity. }
  rewrite Hnode. unfold clearedField. simpl.
  rewrite assoc_assocSet_eq. simpl.
  apply clearedEntries_assocSet; [reflexivity|].
  apply clearedEntries_assocSet; [reflexivity|]. exact Hown.
Qed.

Lemma clearErrors_cleared touch data : clearedBy touch data.
Proof.
  induction data as [| | | |s|props IH|props IH|elems props IHe IHp]
    using value_nested_ind;
    try (split; reflexivity).
  - split; [|reflexivity].
    rewrite clearErrors_unfold. simpl. apply clearFields_cleared, IH.
  - assert (H1 : fieldsCleared (clearErrors touch (VObject props)) = true).
    { rewrite clearErrors_unfold. simpl. apply clearFields_cleared, IH. }
    split; [exact H1|].
    apply clearedField_object; [right; eauto|exact H1].
  - split.
    + rewrite clearErrors_unfold. simpl.
      rewrite clearFields_cleared by exact IHp. rewrite andb_true_r.
      apply forallb_forall. intros x Hx.
      apply in_map_iff in Hx as (c & <- & Hc).
      rewrite Forall_forall in IHe. apply list_elem_of_In in Hc. apply (IHe c Hc).
    + unfold clearedField. simpl.
      apply forallb_forall. intros x Hx.
      apply in_map_iff in Hx as (c & <- & Hc).
      rewrite Forall_forall in IHe. apply list_elem_of_In in Hc. apply (IHe c Hc).
Qed.

Lemma clearErrorsStore_cleared store touch :
  fieldsCleared (contents (clearErrorsStore store touch)) = true.
Proof.
  unfold clearErrorsStore.
  assert (H : fieldsCleared
                (contents (Store.set store (clearErrors touch (contents store))))
              = true).
  { unfold Store.set.
    destruct (Store.safeNotEqual (contents store) _) eqn:E; simpl.
    - apply clearErrors_cleared.
    - destruct (contents store); try discriminate; reflexivity. }
  destruct (contents store) as [| | | |[|a s]| | |] eqn:C; auto.
  rewrite C. reflexivity.
Qed.

(** C7, as the code has it.  [isValid] is what the validation capability
    answered: it is [true] exactly when a schema is present and
    [validateSync] returned on the current values.  When it is [true],
    the clearing pass has emptied the errors list of every field.  The
    errors lists play no part in its computation. *)
Theorem validateForm_isValid_iff_capability_succeeds config highlight form :
  let after := validateForm config highlight form in
  (isValid after = true <->
     exists sch v,
       validationSchema config = Some sch
       /\ validateSync sch (contents (values form)) = Ok v)
  /\ (isValid after = true -> fieldsCleared (contents (state after)) = true).
Proof.
  cbv zeta. unfold validateForm, validate.
  destruct (validationSchema config) as [sch|]; simpl.
  - destruct (validateSync sch (contents (values form))) as [v|e] eqn:Hv; simpl.
    + split; [split; eauto|]. intros _. apply clearErrorsStore_cleared.
    + split; [|discriminate].
      split; [discriminate|]. intros (sch' & v & Hs & Hv').
      injection Hs as <-. congruence.
  - split; [|discriminate].
    split; [discriminate|]. intros (sch' & v & Hs & _). discriminate.
Qed.

Lemma applyErrors_reaches_throw touchInvalid pre bad post st reached left e :
  appliedAll touchInvalid pre st = Some reached ->
  applyError touchInvalid bad reached = (left, Thrown e) ->
  applyErrors touchInvalid (pre ++ bad :: post) st = (left, Some e).
Proof.
  revert st. induction pre as [|x r IH]; simpl; intros st Hpre Hbad.
  - injection Hpre as ->. rewrite Hbad. reflexivity.
  - destruct (applyError touchInvalid x st) as [st1 [| |e1]]; try discriminate.
    apply IH; auto.
Qed.

(** On a form whose schema accepts the values. *)
Lemma validateForm_isValid_iff_capability_succeeds_witness :
  let form :=
    {| values := mkWritable (initialValues lenientForm) 0;
       state := mkWritable blogTree 1;
       isValid := false; isTouched := false;
       cssValidator := 0; validationReset := 0 |} in
  let after := validateForm lenientForm all form in
  isValid after = true /\ fieldsCleared (contents (state after)) = true.
Proof.
  cbv zeta. split; [reflexivity|].
  apply validateForm_isValid_iff_capability_succeeds. reflexivity.
Defined.

(** ** Shapes *)





Lemma childShapes_app f a b :
  childShapes f (a ++ b)%list = (childShapes f a ++ childShapes f b)%list.
Proof.
  induction a as [|[k v] r IH]; simpl; auto.
  destruct (isMeta k); simpl; rewrite IH; reflexivity.
Qed.

Lemma hasTouched_app a b : hasTouched (a ++ b)%list = hasTouched a || hasTouched b.
Proof. unfold hasTouched. apply existsb_app. Qed.





Lemma mapIndexed_total f values :
  Forall (fun x => forall i, exists y, f x i = Ok y) values ->
  forall i, exists ys, mapIndexed f i values = Ok ys.
Proof.
  induction 1 as [|x r Hx _ IH]; simpl; intros i; eauto.
  destruct (Hx i) as [y ->]. destruct (IH (S i)) as [ys ->]. eauto.
Qed.


(** *** Blank nodes *)


Lemma blankFields_app a b :
  blankFields (a ++ b)%list = blankFields a && blankFields b.
Proof. apply forallb_app. Qed.





(** *** Without a schema *)


Lemma distinctKeys_cons {A : Type} k (c : A) r :
  distinctKeys ((k, c) :: r) = true ->
  Forall (fun kc => String.eqb (fst kc) k = false) r /\ distinctKeys r = true.
Proof.
  simpl. intros H. apply andb_prop in H as [H1 H2]. split; auto.
  apply negb_true_iff in H1. apply Forall_forall. intros [k' c'] Hin. simpl.
  destruct (String.eqb k' k) eqn:E; auto.
  apply String.eqb_eq in E. subst k'.
  assert (existsb (fun kc => String.eqb k (fst kc)) r = true).
  { apply existsb_exists. exists (k, c'). split; [apply list_elem_of_In; exact Hin|].
    simpl. apply String.eqb_refl. }
  congruence.
Qed.




(** *** With a schema *)




(** *** Data that has the declared fields *)










(** *** Resetting a form *)






(** ** How a pass treats the metadata of a node *)

Lemma assoc_assocSet_ne {A : Type} k k' (v : A) l :
  String.eqb k k' = false -> assoc k (assocSet k' v l) = assoc k l.
Proof.
  intros Hne. induction l as [|[k0 v0] r IH]; simpl.
  - rewrite Hne. reflexivity.
  - destruct (String.eqb k' k0) eqn:E; simpl.
    + apply String.eqb_eq in E. subst k0. rewrite Hne. reflexivity.
    + rewrite IH. reflexivity.
Qed.

(** The clearing pass never writes the [_touched] or the [_errors] of the
    value it is called on, only those of the values under its keys: an
    array element, on which it is called directly, keeps both. *)
Lemma clearErrors_keeps_own_metadata touch data k :
  isMeta k = true -> prop (clearErrors touch data) k = prop data k.
Proof.
  intros Hk.
  assert (Hidx : arrayIndex k = None /\ String.eqb k "length" = false).
  { unfold isMeta in Hk. apply orb_prop in Hk as [H|H];
      apply String.eqb_eq in H; subst k; split; reflexivity. }
  destruct Hidx as [Hidx Hlen].
  assert (Hprops : forall props,
             assoc k (clearFields touch props) = assoc k props).
  { induction props as [|[k' c] r IH]; simpl; auto.
    destruct (String.eqb k k') eqn:E; [|exact IH].
    apply String.eqb_eq in E. subst k'. rewrite Hk. reflexivity. }
  destruct data; try reflexivity; rewrite clearErrors_unfold; simpl.
  - rewrite Hprops. reflexivity.
  - rewrite Hprops. reflexivity.
  - rewrite Hidx, Hlen, Hprops. reflexivity.
Qed.

Lemma touchPolicy_keeps_true node touch :
  prop node "_touched" = VBool true -> touchPolicy node touch = VBool true.
Proof. unfold touchPolicy. intros ->. destruct touch; reflexivity. Qed.

(** A record or a leaf under a key keeps a raised flag through the
    clearing pass... *)
Lemma clearField_keeps_touched_of_records touch props :
  prop (VObject props) "_touched" = VBool true ->
  prop (clearField touch (VObject props)) "_touched" = VBool true.
Proof.
  intros H.
  change (clearField touch (VObject props)) with
    (VObject (assocSet "_errors" emptyArray
               (assocSet "_touched"
                 (touchPolicy (clearErrors touch (VObject props)) touch)
                 (ownProps (clearErrors touch (VObject props)))))).
  cbn [prop]. rewrite assoc_assocSet_ne by reflexivity.
  rewrite assoc_assocSet_eq. cbn [orUndefined].
  apply touchPolicy_keeps_true.
  rewrite clearErrors_keeps_own_metadata by reflexivity. exact H.
Qed.

(** ... and an array under a key does not: its flag becomes [touch]
    whatever it was. *)
Lemma clearField_resets_touched_of_arrays touch values props :
  prop (clearField touch (VArray values props)) "_touched" = VBool touch.
Proof. reflexivity. Qed.

(** Once a violation does not resolve, the violations after it are not
    looked at, whatever they are. *)
Lemma applyErrors_stops_at_unresolved
    touchInvalid pre bad post st reached left :
  appliedAll touchInvalid pre st = Some reached ->
  applyError touchInvalid bad reached = (left, Break) ->
  applyErrors touchInvalid (pre ++ bad :: post) st = (left, None).
Proof.
  revert st. induction pre as [|x r IH]; simpl; intros st Hpre Hbad.
  - injection Hpre as ->. rewrite Hbad. reflexivity.
  - destruct (applyError touchInvalid x st) as [st1 [| |e1]];
      try discriminate.
    apply IH; auto.
Qed.

(** ** What the code does on particular forms *)

(** C1.  The walk of [setErrors] leaves the loop over the violations at
    the first path with a missing segment: with the unresolvable
    [users[0].name] listed before [title], the message for [title] is not
    appended although [title] resolves; listed after it, the message is
    appended. *)
Lemma setErrors_unresolved_path_skips_later_violations :
  (before ← createValidatedState noUsers blogFields (VObject []);
   let store := mkWritable before 1 in
   Ok (errorsAt "title"
         (contents (setErrors store
                      (ValidationError [staleUser; missingTitle])
                      false false)),
       errorsAt "title"
         (contents (setErrors store
                      (ValidationError [missingTitle; staleUser])
                      false false))))
  = Ok (Ok (messages []), Ok (messages ["title is a required field"])).
Proof. vm_compute. reflexivity. Qed.

(** C2.  An array node loses its raised [_touched]: after
    [validateForm('all')] on a valid form the flag of [users] is [true],
    and the next [validateForm('none')] sets it back to [false]. *)
Lemma clearErrors_resets_touched_of_arrays :
  (form ← createForm lenientForm;
   let marked := validateForm lenientForm all form in
   let again := validateForm lenientForm none marked in
   Ok (touchedAt "users" (contents (state marked)),
       touchedAt "users" (contents (state again))))
  = Ok (Ok (VBool true), Ok (VBool false)).
Proof. vm_compute. reflexivity. Qed.


(** C4.  The rebuild carries the errors of an array element over: the
    element [tags[0]] holds a message before [updateState] and the same
    message after it. *)
Lemma updateState_keeps_errors_of_array_elements :
  (form ← createForm tagsForm;
   rebuilt ← updateState (values form) (validationSchema tagsForm)
               (state form);
   Ok (errorsAt "tags[0]" (contents (state form)),
       errorsAt "tags[0]" (contents rebuilt)))
  = Ok (Ok (messages ["tags[0] is a required field"]),
        Ok (messages ["tags[0] is a required field"])).
Proof. vm_compute. reflexivity. Qed.

(** C5, as stated, fails: the pass below throws at the violation without
    a path, and the tree the store holds afterwards has the message of
    the violation before it, which the tree before the pass had not. *)
Lemma setErrors_failure_leaves_partial_errors :
  exists before,
    createValidatedState noUsers blogFields (VObject []) = Ok before
    /\ let store := mkWritable before 1 in
       let inner := [missingTitle; rootViolation] in
       let after := setErrors store (ValidationError inner) false false in
       snd (applyErrors false inner (clearErrors false before))
         = Some TypeError
       /\ errorsAt "title" before = Ok (messages [])
       /\ errorsAt "title" (contents after)
            = Ok (messages ["title is a required field"])
       /\ contents after <> before.
Proof.
  eexists. split; [vm_compute; reflexivity|].
  cbv zeta. repeat split; try (vm_compute; reflexivity).
  vm_compute. discriminate.
Qed.

(** C6.  The object branch reads [data[key]] without the guard the array
    branch has: with [address] absent from the data, the nested object
    field [geo] makes the builder throw.  [createForm], which hands the
    builder the store object, throws in the same way even on values that
    have every field. *)
Lemma createValidatedState_throws_on_absent_nested_object :
  createValidatedState (VObject []) nestedFields (VObject [])
  = Throw TypeError
  /\ createForm nestedForm = Throw TypeError.
Proof. split; vm_compute; reflexivity. Qed.

(** C7, as stated, fails: a violation of the array [users] itself lands
    on a container, so the form is invalid while no leaf has a message. *)
Lemma isValid_false_without_leaf_errors :
  exists form,
    createForm minUsersForm = Ok form
    /\ let checked := validateForm minUsersForm errors form in
       isValid checked = false
       /\ someLeafHasErrors (contents (state checked)) = false
       /\ errorsAt "users" (contents (state checked))
            = Ok (messages ["users field must have at least 1 items"])
       /\ ~ (isValid checked = true
             <-> someLeafHasErrors (contents (state checked)) = false).
Proof.
  eexists. split; [vm_compute; reflexivity|].
  cbv zeta. repeat split; try (vm_compute; reflexivity).
  vm_compute. intros [_ H]. specialize (H eq_refl). discriminate.
Qed.

(** C8.  The clearing pass does not reach the [_errors] of an array
    element: two [validateForm('none')] in a row on unchanged data leave
    two, then three copies of the message at [tags[0]]. *)
Lemma validateForm_twice_accumulates_element_errors :
  (form ← createForm tagsForm;
   let first := validateForm tagsForm none form in
   let second := validateForm tagsForm none first in
   Ok (contents (values second),
       errorsAt "tags[0]" (contents (state first)),
       errorsAt "tags[0]" (contents (state second))))
  = Ok (initialValues tagsForm,
        Ok (messages ["tags[0] is a required field";
                      "tags[0] is a required field"]),
        Ok (messages ["tags[0] is a required field";
                      "tags[0] is a required field";
                      "tags[0] is a required field"])).
Proof. vm_compute. reflexivity. Qed.

(** C10.  [createForm] builds the state from the store object instead of
    the values, so [users] starts empty; the pass run at construction
    then finds no [users[0]] and records nothing: the initial values are
    invalid, [isValid] is [false], and every errors list is empty. *)
Lemma createForm_invalid_initial_values_without_errors :
  (form ← createForm (usersForm oneUnnamedUser);
   Ok (requireNames (contents (values form)),
       isValid form,
       contents (state form)))
  = Ok (Throw (ValidationError [staleUser]),
        false,
        VObject [("users",
                  VArray [] [("_touched", VBool false);
                             ("_errors", VArray [] [])])]).
Proof. vm_compute. reflexivity. Qed.

(** * Further properties *)

(** ** Paths *)

Lemma append_nil (b : string) : ("" ++ b = b)%string.
Proof. reflexivity. Qed.

Lemma append_cons c (a b : string) :
  (String c a ++ b = String c (a ++ b))%string.
Proof. reflexivity. Qed.

Lemma string_app_assoc (a b c : string) :
  ((a ++ b) ++ c = a ++ (b ++ c))%string.
Proof.
  induction a as [|x a IH]; [reflexivity|].
  rewrite !append_cons, IH. reflexivity.
Qed.

Lemma string_app_empty_r (a : string) : (a ++ "" = a)%string.
Proof.
  induction a as [|x a IH]; [reflexivity|].
  rewrite append_cons, IH. reflexivity.
Qed.

Lemma segmentsFrom_separator a c b current :
  isSeparator c = true ->
  segmentsFrom (a ++ String c b) current
  = (segmentsFrom a current ++ segmentsOf b)%list.
Proof.
  intros Hc. revert current.
  induction a as [|x a IH]; intros current;
    [rewrite append_nil|rewrite append_cons]; simpl.
  - rewrite Hc. unfold segmentsOf.
    destruct (String.eqb current ""); reflexivity.
  - destruct (isSeparator x).
    + destruct (String.eqb current ""); simpl; rewrite IH; reflexivity.
    + apply IH.
Qed.

Lemma segmentsFrom_plain s current :
  noSeparator s = true ->
  segmentsFrom s current
  = if String.eqb (current ++ s) "" then [] else [(current ++ s)%string].
Proof.
  revert current. induction s as [|c s IH]; intros current Hs; simpl.
  - rewrite string_app_empty_r. reflexivity.
  - simpl in Hs. apply andb_prop in Hs as [Hc Hs].
    apply negb_true_iff in Hc. rewrite Hc, IH by exact Hs.
    rewrite string_app_assoc, append_cons, append_nil. reflexivity.
Qed.

Lemma segmentsOf_plain s : plainSegment s = true -> segmentsOf s = [s].
Proof.
  unfold plainSegment, segmentsOf. intros H. apply andb_prop in H as [Hne Hs].
  rewrite segmentsFrom_plain by exact Hs. rewrite !append_nil.
  apply negb_true_iff in Hne. rewrite Hne. reflexivity.
Qed.

(** X1.  A path splits at every separator, and the three separators
    [.], [[] and []] do the same: the segments of a path with a separator
    in it are those of the part before it followed by those of the part
    after it.  So [users[0].name] and [users.0.name] name the same field. *)
Theorem segmentsOf_separators_interchangeable a b c :
  isSeparator c = true ->
  segmentsOf (a ++ String c b) = (segmentsOf a ++ segmentsOf b)%list.
Proof. intros Hc. apply segmentsFrom_separator, Hc. Qed.

Lemma segmentsOf_separators_interchangeable_witness :
  isSeparator "[" = true
  /\ segmentsOf ("users" ++ String "[" "0].name")
     = (segmentsOf "users" ++ segmentsOf "0].name")%list.
Proof.
  split; [reflexivity|].
  apply segmentsOf_separators_interchangeable. reflexivity.
Defined.

(** X2.  Parsing the dotted spelling of a list of segments gives the list
    back, when no segment is empty or holds a separator. *)
Theorem segmentsOf_dotted segments :
  Forall (fun s => plainSegment s = true) segments ->
  segmentsOf (dotted segments) = segments.
Proof.
  unfold dotted. induction 1 as [|s r Hs Hr IH]; [reflexivity|].
  destruct r as [|s' r'].
  - simpl. apply segmentsOf_plain, Hs.
  - change (String.concat "." (s :: s' :: r'))
      with (s ++ String "." (String.concat "." (s' :: r')))%string.
    unfold segmentsOf at 1. rewrite segmentsFrom_separator by reflexivity.
    fold (segmentsOf s).
    rewrite IH, segmentsOf_plain by exact Hs. reflexivity.
Qed.

Lemma segmentsOf_dotted_witness :
  Forall (fun s => plainSegment s = true) ["users"; "0"; "name"]
  /\ segmentsOf (dotted ["users"; "0"; "name"]) = ["users"; "0"; "name"].
Proof.
  assert (H : Forall (fun s => plainSegment s = true) ["users"; "0"; "name"]).
  { repeat constructor. }
  split; [exact H|]. apply segmentsOf_dotted, H.
Defined.

Lemma noSeparator_app a b :
  noSeparator a = true -> noSeparator b = true -> noSeparator (a ++ b) = true.
Proof.
  induction a as [|c a IH]; intros Ha Hb; [exact Hb|].
  rewrite append_cons. simpl in *.
  apply andb_prop in Ha as [Hc Ha]. rewrite Hc, IH; auto.
Qed.

Lemma segmentsFrom_plainSegments s current :
  noSeparator current = true ->
  Forall (fun seg => plainSegment seg = true) (segmentsFrom s current).
Proof.
  revert current. induction s as [|c s IH]; intros current Hcur; simpl.
  - destruct (String.eqb current "") eqn:E; constructor; [|constructor].
    unfold plainSegment. rewrite E, Hcur. reflexivity.
  - destruct (isSeparator c) eqn:Hc.
    + destruct (String.eqb current "") eqn:E.
      * apply IH. reflexivity.
      * constructor; [|apply IH; reflexivity].
        unfold plainSegment. rewrite E, Hcur. reflexivity.
    + apply IH. apply noSeparator_app; [exact Hcur|]. simpl. rewrite Hc. reflexivity.
Qed.

(** X3.  Whatever the path, none of its segments is empty and none holds a
    separator: doubled, leading and trailing separators are dropped. *)
Theorem segmentsOf_plainSegments p :
  Forall (fun seg => plainSegment seg = true) (segmentsOf p).
Proof. apply segmentsFrom_plainSegments. reflexivity. Qed.

(** ** Lookup *)

Lemma descend_app front back obj :
  descend (front ++ back)%list obj
  = (found ← descend front obj;
     match found with
     | None => Ok None
     | Some o => descend back o
     end).
Proof.
  revert obj. induction front as [|seg r IH]; intros obj; [reflexivity|].
  simpl. destruct (get obj seg) as [child|]; [|reflexivity]. simpl.
  destruct (truthy child); [apply IH|reflexivity].
Qed.

Lemma removelast_last {A : Type} (l : list A) d :
  l <> [] -> l = (removelast l ++ [List.last l d])%list.
Proof. intros H. apply app_removelast_last. exact H. Qed.

Lemma removelast_app_nonempty {A : Type} (a b : list A) :
  b <> [] -> removelast (a ++ b)%list = (a ++ removelast b)%list.
Proof. intros H. apply removelast_app. exact H. Qed.

Lemma last_app_nonempty {A : Type} (a b : list A) d :
  b <> [] -> List.last (a ++ b)%list d = List.last b d.
Proof.
  intros H. induction a as [|x a IH]; [reflexivity|].
  simpl. destruct (a ++ b)%list eqn:E; [|exact IH].
  apply app_eq_nil in E as [_ E]. contradiction.
Qed.

(** The lookup along [front ++ back] is the lookup along [back] in the
    node found along [front]. *)
Lemma lookup_in_two_steps front back state :
  front <> [] -> back <> [] ->
  (found ← descend (removelast (front ++ back)%list) state;
   match found with
   | None => Ok VNull
   | Some obj =>
       node ← get obj (lastSegment (front ++ back)%list);
       Ok (if truthy node then node else VNull)
   end)
  = (node ← (found ← descend (removelast front) state;
             match found with
             | None => Ok VNull
             | Some obj =>
                 node ← get obj (lastSegment front);
                 Ok (if truthy node then node else VNull)
             end);
     match node with
     | VNull => Ok VNull
     | _ =>
         found ← descend (removelast back) node;
         match found with
         | None => Ok VNull
         | Some obj =>
             node' ← get obj (lastSegment back);
             Ok (if truthy node' then node' else VNull)
         end
     end).
Proof.
  intros Hf Hb. unfold lastSegment.
  rewrite (removelast_app_nonempty front back Hb).
  rewrite (last_app_nonempty front back "undefined" Hb).
  rewrite (removelast_last front "undefined" Hf) at 1.
  rewrite <- app_assoc, descend_app.
  destruct (descend (removelast front) state) as [[o|]|e]; simpl;
    try reflexivity.
  destruct (get o (List.last front "undefined")) as [child|e]; simpl;
    [|reflexivity].
  destruct (truthy child) eqn:T; [|reflexivity].
  destruct child; simpl in T; try discriminate; reflexivity.
Qed.

(** X4.  [getFieldState] on a state that is [null] or [undefined] throws
    a [TypeError], whatever the name.  Whatever it returns is [null] or a
    truthy value, never [undefined] or another falsy value.  And a lookup
    can be made in two steps: the field at [name.rest] is the field at
    [rest] of the node found at [name], and [null] when there is no such
    node. *)
Theorem getFieldState_node_or_null name state :
  (isNullish state = true -> getFieldState name state = Throw TypeError)
  /\ (forall node,
        getFieldState name state = Ok node ->
        node = VNull \/ truthy node = true)
  /\ (forall rest,
        segmentsOf name <> [] -> segmentsOf rest <> [] ->
        getFieldState (name ++ String "." rest) state
        = (node ← getFieldState name state;
           match node with
           | VNull => Ok VNull
           | _ => getFieldState rest node
           end)).
Proof.
  split; [|split].
  - intros Hs. unfold getFieldState.
    destruct (removelast (segmentsOf name)) as [|seg r]; simpl;
      unfold get; rewrite Hs; reflexivity.
  - intros node H. unfold getFieldState in H.
    apply bind_Ok in H as (found & _ & H).
    destruct found as [obj|]; [|injection H as <-; auto].
    apply bind_Ok in H as (n & _ & H).
    destruct (truthy n) eqn:T; injection H as <-; auto.
  - intros rest Hn Hr. unfold getFieldState. cbv zeta.
    unfold segmentsOf at 1 2. rewrite segmentsFrom_separator by reflexivity.
    fold (segmentsOf name).
    apply lookup_in_two_steps; assumption.
Qed.

Lemma getFieldState_node_or_null_witness :
  getFieldState "title" VNull = Throw TypeError
  /\ getFieldState ("users" ++ String "." "0.name") titleFlagged
     = (node ← getFieldState "users" titleFlagged;
        match node with
        | VNull => Ok VNull
        | _ => getFieldState "0.name" node
        end).
Proof.
  split.
  - apply (proj1 (getFieldState_node_or_null "title" VNull)). reflexivity.
  - apply (proj2 (proj2 (getFieldState_node_or_null "users" titleFlagged)));
      discriminate.
Defined.

(** ** Forms without a schema *)

Lemma forIn_total {S : Type} (body : string -> S -> value -> result value)
    entries :
  Forall (fun ks => forall props, exists props',
            body (fst ks) (snd ks) (VObject props) = Ok (VObject props'))
    entries ->
  forall props, exists props',
    forIn body entries (VObject props) = Ok (VObject props').
Proof.
  induction 1 as [|[k s] r Hhd _ IH]; simpl; intros props; eauto.
  simpl in Hhd. destruct (Hhd props) as [p1 ->]. apply IH.
Qed.

Lemma forInElems_total body elems :
  Forall (fun x => forall k props, exists props',
            body k x (VObject props) = Ok (VObject props')) elems ->
  forall i props, exists props',
    forInElems body i elems (VObject props) = Ok (VObject props').
Proof.
  induction 1 as [|x r Hhd _ IH]; simpl; intros i props; eauto.
  destruct (Hhd (keyOfIndex i) props) as [p1 ->]. apply IH.
Qed.

Lemma rawField_total child :
  rawTotal child ->
  (match child with VArray values _ => Forall rawTotal values | _ => True end) ->
  forall key props, exists props',
    rawField key child (VObject props) = Ok (VObject props').
Proof.
  intros Hchild Helems key props.
  assert (Hleaf : exists props',
             set (VObject props) key (leafState (seedTouched (VObject props) key))
             = Ok (VObject props')) by (simpl; eauto).
  assert (Hobj : exists props',
             (prev ← get (VObject props) key;
              sub ← createRawState child (spread prev);
              set (VObject props) key (withErrorsReset sub))
             = Ok (VObject props')).
  { change (get (VObject props) key) with (Ok (prop (VObject props) key)).
    cbn [mbind result_bind]. unfold spread.
    destruct (Hchild (ownProps (prop (VObject props) key))) as [p' ->].
    simpl. eauto. }
  destruct child; try exact Hleaf; try exact Hobj.
  unfold rawField, rawFieldWith.
  destruct (mapIndexed_total
              (fun value index =>
                 prev ← get (VObject props) key;
                 createRawState value (spread (prop prev (keyOfIndex index))))
              elems) with (i := 0) as [ys ->].
  { eapply Forall_impl; [exact Helems|]. intros x Hx i.
    change (get (VObject props) key) with (Ok (prop (VObject props) key)).
    cbn [mbind result_bind]. unfold spread.
    destruct (Hx (ownProps (prop (prop (VObject props) key) (keyOfIndex i))))
      as [p' ->]. eauto. }
  simpl. eauto.
Qed.

Lemma createRawState_total data :
  rawTotal data
  /\ match data with VArray values _ => Forall rawTotal values | _ => True end.
Proof.
  induction data as [| | | |s|props IH|props IH|elems props IHe IHp]
    using value_nested_ind;
    (split; [|try exact I]); try (intros p; simpl; eauto; fail).
  - intros p. rewrite createRawState_unfold. apply forIn_total.
    apply Forall_forall. intros [k c] _ p0. simpl. eauto.
  - intros p. rewrite createRawState_unfold. apply forIn_total.
    eapply Forall_impl; [exact IH|].
    intros [k c] [Hc He] p0. simpl. apply rawField_total; auto.
  - intros p. rewrite createRawState_unfold. apply forIn_total.
    eapply Forall_impl; [exact IH|].
    intros [k c] [Hc He] p0. simpl. apply rawField_total; auto.
  - intros p. rewrite createRawState_unfold.
    destruct (forInElems_total rawField elems) with (i := 0) (props := p)
      as [p1 H1].
    { eapply Forall_impl; [exact IHe|].
      intros c [Hc He] k p0. apply rawField_total; auto. }
    rewrite H1. cbn [mbind result_bind].
    apply forIn_total.
    eapply Forall_impl; [exact IHp|].
    intros [k c] [Hc He] p0. simpl. apply rawField_total; auto.
  - eapply Forall_impl; [exact IHe|]. intros c [Hc _]. exact Hc.
Qed.

Lemma json_object props : exists props', json (VObject props) = VObject props'.
Proof. simpl. eauto. Qed.

(** X5.  Without a validation schema, and as far as the code of the form
    itself goes (no subscriber of its stores that throws), [createForm]
    and [resetForm] do not throw on values that are finite trees, as the
    values of this development are; a value with a cycle is none, and the
    builder does not end on it.  [updateForm] does not throw either when
    the state store holds a record. *)
Theorem schemaless_form_never_throws config :
  validationSchema config = None ->
  (exists form, createForm config = Ok form)
  /\ (forall newValue form, snd (resetForm config newValue form) = None)
  /\ (forall form props,
        contents (state form) = VObject props ->
        exists form', updateForm config form = Ok form').
Proof.
  intros Hs. repeat split.
  - unfold createForm, createState. rewrite Hs.
    destruct (createRawState_total storeObject) as [H _].
    destruct (H []) as [p ->]. simpl. eauto.
  - intros newValue form. unfold resetForm, createState. rewrite Hs.
    set (form1 := if truthy newValue then setValues config newValue form
                  else form).
    destruct (createRawState_total (contents (values form1))) as [H _].
    destruct (H []) as [p ->]. reflexivity.
  - intros form props Hst. unfold updateForm, updateState. rewrite Hs, Hst.
    unfold jsonClone. cbn [unserializable].
    destruct (json_object props) as [p' ->]. cbn [mbind result_bind].
    destruct (createRawState_total (contents (values form))) as [H _].
    destruct (H p') as [p'' ->]. simpl. eauto.
Qed.

Lemma schemaless_form_never_throws_witness :
  exists form, createForm plainConfig = Ok form.
Proof. apply (schemaless_form_never_throws plainConfig). reflexivity. Defined.

(** X6.  Without a validation schema a form is never valid: [isValid] is
    false after [createForm], [validateForm], [resetForm] and
    [updateForm].  [validateForm] still empties the errors of every field
    of the tree the state store holds (every value under a name other
    than [_touched] and [_errors], in records and inside the elements of
    arrays), in place: the store publishes nothing. *)
Theorem schemaless_form_is_never_valid config :
  validationSchema config = None ->
  (forall form, createForm config = Ok form -> isValid form = false)
  /\ (forall highlight form,
        let after := validateForm config highlight form in
        isValid after = false
        /\ fieldsCleared (contents (state after)) = true
        /\ published (state after) = published (state form))
  /\ (forall newValue form,
        isValid (fst (resetForm config newValue form)) = false)
  /\ (forall form form',
        updateForm config form = Ok form' -> isValid form' = false).
Proof.
  intros Hs.
  assert (Hv : forall highlight form,
             let after := validateForm config highlight form in
             isValid after = false
             /\ fieldsCleared (contents (state after)) = true
             /\ published (state after) = published (state form)).
  { intros highlight form. cbv zeta. unfold validateForm, validate.
    rewrite Hs. simpl. repeat split. apply clearErrors_cleared. }
  repeat split.
  - intros form Hc. unfold createForm in Hc.
    apply bind_Ok in Hc as (st & _ & Hc). injection Hc as <-.
    unfold onValues. rewrite Hs. reflexivity.
  - apply Hv.
  - apply Hv.
  - apply Hv.
  - intros newValue form. unfold resetForm.
    destruct (createState _ _ _); reflexivity.
  - intros form form' Hu. unfold updateForm in Hu.
    apply bind_Ok in Hu as (st & _ & Hu). injection Hu as <-.
    apply Hv.
Qed.

Lemma schemaless_form_is_never_valid_witness :
  let after :=
    validateForm plainConfig all flaggedForm in
  isValid after = false
  /\ fieldsCleared (contents (state after)) = true
  /\ published (state after) = 1.
Proof.
  apply (schemaless_form_is_never_valid plainConfig). reflexivity.
Defined.

(** ** The clearing pass, once more *)

Lemma assocSet_same {A : Type} k (v : A) l :
  assoc k l = Some v -> assocSet k v l = l.
Proof.
  induction l as [|[k' v'] r IH]; simpl; [discriminate|].
  destruct (String.eqb k k') eqn:E.
  - apply String.eqb_eq in E. subst k'. intros [= ->]. reflexivity.
  - intros H. rewrite IH by exact H. reflexivity.
Qed.

Lemma touchPolicy_settled node node' touch :
  prop node' "_touched" = touchPolicy node touch ->
  touchPolicy node' touch = touchPolicy node touch.
Proof.
  intros H. unfold touchPolicy in *.
  destruct (isBoolean (prop node "_touched") && negb touch) eqn:E;
    rewrite H.
  - rewrite E. reflexivity.
  - simpl. destruct touch; reflexivity.
Qed.

Lemma clearFields_assocSet touch k v l :
  isMeta k = true ->
  clearFields touch (assocSet k v l) = assocSet k v (clearFields touch l).
Proof.
  intros Hk. unfold clearFields, clearFieldsWith.
  induction l as [|[k' v'] r IH]; simpl.
  - rewrite Hk. reflexivity.
  - destruct (String.eqb k k'); simpl.
    + rewrite Hk. reflexivity.
    + rewrite IH. reflexivity.
Qed.

Lemma clearFields_cons touch k c r :
  clearFields touch ((k, c) :: r)
  = (k, if isMeta k then c else clearField touch c) :: clearFields touch r.
Proof. reflexivity. Qed.

Lemma clearFields_twice touch props :
  Forall (fun kc => clearedTwice touch (snd kc)) props ->
  clearFields touch (clearFields touch props) = clearFields touch props.
Proof.
  induction 1 as [|[k c] r [_ Hc] _ IH]; [reflexivity|].
  rewrite !clearFields_cons, IH. simpl in Hc.
  destruct (isMeta k); [reflexivity|]. rewrite Hc. reflexivity.
Qed.

(** The node the object branch makes is left as it is by a second pass. *)
Lemma clearField_settled touch props t :
  clearFields touch props = props ->
  touchPolicy (VObject (assocSet "_errors" emptyArray
                         (assocSet "_touched" t props))) touch = t ->
  clearField touch
    (VObject (assocSet "_errors" emptyArray (assocSet "_touched" t props)))
  = VObject (assocSet "_errors" emptyArray (assocSet "_touched" t props)).
Proof.
  intros Hprops Ht.
  set (L := assocSet "_errors" emptyArray (assocSet "_touched" t props)) in *.
  assert (HL : clearFields touch L = L).
  { unfold L. rewrite !clearFields_assocSet by reflexivity.
    rewrite Hprops. reflexivity. }
  change (clearField touch (VObject L)) with
    (VObject (assocSet "_errors" emptyArray
               (assocSet "_touched"
                 (touchPolicy (clearErrors touch (VObject L)) touch)
                 (ownProps (clearErrors touch (VObject L)))))).
  rewrite clearErrors_unfold. cbn [ownProps]. rewrite HL, Ht.
  assert (H1 : assocSet "_touched" t L = L).
  { apply assocSet_same. unfold L.
    rewrite assoc_assocSet_ne by reflexivity. apply assoc_assocSet_eq. }
  rewrite H1. f_equal. apply assocSet_same. unfold L. apply assoc_assocSet_eq.
Qed.

Lemma touchPolicy_of_made touch props c :
  touchPolicy
    (VObject (assocSet "_errors" emptyArray
               (assocSet "_touched" (touchPolicy c touch) props))) touch
  = touchPolicy c touch.
Proof.
  apply touchPolicy_settled. cbn [prop].
  rewrite assoc_assocSet_ne by reflexivity.
  rewrite assoc_assocSet_eq. reflexivity.
Qed.

Lemma clearErrors_twice touch data : clearedTwice touch data.
Proof.
  assert (Hleaf : forall c,
             clearField touch (leafState (touchPolicy c touch))
             = leafState (touchPolicy c touch)).
  { intros c. apply (clearField_settled touch [] (touchPolicy c touch));
      [reflexivity|]. apply (touchPolicy_of_made touch [] c). }
  induction data as [| | | |s|props IH|props IH|elems props IHe IHp]
    using value_nested_ind.
  - split; [reflexivity|]. apply Hleaf.
  - split; [reflexivity|].
    apply (clearField_settled touch [] (touchPolicy VNull touch));
      [reflexivity|]. apply (touchPolicy_of_made touch [] VNull).
  - split; [reflexivity|]. apply Hleaf.
  - split; [reflexivity|]. apply Hleaf.
  - split; [reflexivity|]. apply Hleaf.
  - split; [|apply Hleaf].
    rewrite !clearErrors_unfold. rewrite clearFields_twice by exact IH.
    reflexivity.
  - assert (H1 : clearFields touch (clearFields touch props)
                 = clearFields touch props) by (apply clearFields_twice, IH).
    split.
    + rewrite !clearErrors_unfold. rewrite H1. reflexivity.
    + change (clearField touch (VObject props)) with
        (VObject (assocSet "_errors" emptyArray
                   (assocSet "_touched"
                     (touchPolicy (clearErrors touch (VObject props)) touch)
                     (ownProps (clearErrors touch (VObject props)))))).
      rewrite clearErrors_unfold. cbn [ownProps].
      apply clearField_settled; [exact H1|].
      apply touchPolicy_of_made.
  - assert (He : map (clearErrors touch) (map (clearErrors touch) elems)
                 = map (clearErrors touch) elems).
    { rewrite map_map. apply map_ext_Forall.
      eapply Forall_impl; [exact IHe|]. intros c [Hc _]. exact Hc. }
    split.
    + rewrite !clearErrors_unfold.
      rewrite clearFields_twice by exact IHp. f_equal.
      rewrite map_map. apply map_ext_Forall.
      eapply Forall_impl; [exact IHe|]. intros c [_ Hc]. exact Hc.
    + change (clearField touch (VArray elems props)) with
        (VArray (map (clearErrors touch) elems)
           [("_touched",
             touchPolicy (VArray (map (clearErrors touch) elems) []) touch);
            ("_errors", emptyArray)]).
      change (clearField touch (VArray ?e ?p)) with
        (VArray (map (clearErrors touch) e)
           [("_touched",
             touchPolicy (VArray (map (clearErrors touch) e) []) touch);
            ("_errors", emptyArray)]).
      rewrite He. reflexivity.
Qed.

Lemma clearErrorsStore_contents store touch :
  contents (clearErrorsStore store touch) = clearErrors touch (contents store).
Proof.
  unfold clearErrorsStore.
  assert (H : contents (Store.set store (clearErrors touch (contents store)))
              = clearErrors touch (contents store)).
  { unfold Store.set.
    destruct (Store.safeNotEqual (contents store) _) eqn:E; [reflexivity|].
    destruct (contents store); try discriminate; reflexivity. }
  destruct (contents store) as [| | | |[|a s]| | |] eqn:C;
    rewrite ?C in *; auto.
Qed.

(** X7.  On data the schema accepts, validating twice in a row leaves the
    state tree of validating once, and the form is valid both times. *)
Theorem validateForm_twice_on_valid_data config sch highlight form v :
  validationSchema config = Some sch ->
  validateSync sch (contents (values form)) = Ok v ->
  let first := validateForm config highlight form in
  let second := validateForm config highlight first in
  contents (state second) = contents (state first)
  /\ isValid first = true /\ isValid second = true.
Proof.
  intros Hs Hv. cbv zeta.
  assert (H1 : forall f,
             contents (values f) = contents (values form) ->
             validateForm config highlight f
             = {| values := values f;
                  state := clearErrorsStore (state f)
                             match highlight with all => true | _ => false end;
                  isValid := true;
                  isTouched := isTouched f;
                  cssValidator := cssValidator (validateForm config highlight f);
                  validationReset := validationReset f |}).
  { intros f Hf. unfold validateForm, validate. rewrite Hs, Hf, Hv. reflexivity. }
  rewrite (H1 (validateForm config highlight form)); rewrite (H1 form);
    try reflexivity.
  cbn [state isValid values]. repeat split.
  rewrite !clearErrorsStore_contents. apply clearErrors_twice.
Qed.

Lemma validateForm_twice_on_valid_data_witness :
  let first := validateForm lenientForm errors flaggedForm in
  let second := validateForm lenientForm errors first in
  contents (state second) = contents (state first)
  /\ isValid first = true /\ isValid second = true.
Proof.
  exact (validateForm_twice_on_valid_data lenientForm
           (mkObjectSchema usersFields (fun data => Ok data)) errors
           flaggedForm (initialValues lenientForm) eq_refl eq_refl).
Defined.

(** *** Highlighting every field *)

Lemma touchedEntries_assocSet f k v l :
  isMeta k = true ->
  forallb (touchedEntry f) l = true ->
  forallb (touchedEntry f) (assocSet k v l) = true.
Proof.
  intros Hk. induction l as [|[k' v'] r IH]; simpl; intros H.
  - unfold touchedEntry. simpl. rewrite Hk. reflexivity.
  - apply andb_prop in H as [H1 H2].
    destruct (String.eqb k k'); simpl.
    + unfold touchedEntry at 1. simpl. rewrite Hk, H2. reflexivity.
    + rewrite H1, IH; auto.
Qed.

Lemma touchPolicy_true node : touchPolicy node true = VBool true.
Proof. unfold touchPolicy. rewrite andb_false_r. reflexivity. Qed.

Lemma clearFields_touched props :
  Forall (fun kc => touchedBy (snd kc)) props ->
  forallb (touchedEntry fieldsTouched) (clearFields true props) = true.
Proof.
  induction 1 as [|[k c] r [_ Hc] _ IH]; [reflexivity|].
  rewrite clearFields_cons. cbn [forallb]. rewrite IH, andb_true_r.
  unfold touchedEntry. simpl.
  destruct (isMeta k) eqn:E; simpl; [reflexivity|exact Hc].
Qed.

Lemma touchedField_object c :
  (c = VNull \/ exists p, c = VObject p) ->
  fieldsTouched (clearErrors true c) = true ->
  touchedField fieldsTouched (clearField true c) = true.
Proof.
  intros Hc H.
  assert (Hown : forallb (touchedEntry fieldsTouched)
                   (ownProps (clearErrors true c)) = true).
  { destruct Hc as [->|[p ->]]; [reflexivity|exact H]. }
  assert (Hnode : clearField true c =
            VObject (assocSet "_errors" emptyArray
                       (assocSet "_touched" (VBool true)
                          (ownProps (clearErrors true c))))).
  { destruct Hc as [->|[p ->]]; unfold clearField, clearFieldWith;
      rewrite touchPolicy_true; reflexivity. }
  rewrite Hnode. unfold touchedField. cbn [prop].
  rewrite assoc_assocSet_ne by reflexivity.
  rewrite assoc_assocSet_eq. cbn [orUndefined]. cbn [fieldsTouched].
  apply touchedEntries_assocSet; [reflexivity|].
  apply touchedEntries_assocSet; [reflexivity|]. exact Hown.
Qed.

Lemma clearErrors_touches data : touchedBy data.
Proof.
  induction data as [| | | |s|props IH|props IH|elems props IHe IHp]
    using value_nested_ind;
    try (split; reflexivity).
  - split;
      [|unfold clearField, clearFieldWith; rewrite touchPolicy_true;
        reflexivity].
    rewrite clearErrors_unfold. simpl. apply clearFields_touched, IH.
  - assert (H1 : fieldsTouched (clearErrors true (VObject props)) = true).
    { rewrite clearErrors_unfold. simpl. apply clearFields_touched, IH. }
    split; [exact H1|].
    apply touchedField_object; [right; eauto|exact H1].
  - split.
    + rewrite clearErrors_unfold. simpl.
      rewrite clearFields_touched by exact IHp. rewrite andb_true_r.
      apply forallb_forall. intros x Hx.
      apply in_map_iff in Hx as (c & <- & Hc).
      rewrite Forall_forall in IHe. apply list_elem_of_In in Hc.
      apply (IHe c Hc).
    + unfold touchedField. simpl.
      apply forallb_forall. intros x Hx.
      apply in_map_iff in Hx as (c & <- & Hc).
      rewrite Forall_forall in IHe. apply list_elem_of_In in Hc.
      apply (IHe c Hc).
Qed.

(** X8.  On data the schema accepts, [validateForm('all')] raises
    [_touched] on every field of the state tree: on every value under a
    name other than [_touched] and [_errors], in records and inside the
    elements of arrays, at any depth.  (An element of an array is no
    field itself and gets no flag of its own.) *)
Theorem validateForm_all_touches_every_field config sch form v :
  validationSchema config = Some sch ->
  validateSync sch (contents (values form)) = Ok v ->
  fieldsTouched (contents (state (validateForm config all form))) = true.
Proof.
  intros Hs Hv. unfold validateForm, validate. rewrite Hs, Hv.
  cbn [state]. rewrite clearErrorsStore_contents. apply clearErrors_touches.
Qed.

Lemma validateForm_all_touches_every_field_witness :
  fieldsTouched (contents (state (validateForm lenientForm all flaggedForm)))
  = true.
Proof.
  exact (validateForm_all_touches_every_field lenientForm
           (mkObjectSchema usersFields (fun data => Ok data)) flaggedForm
           (initialValues lenientForm) eq_refl eq_refl).
Defined.

(** ** Writing through a path and reading it back *)

Lemma objectLike_truthy v : objectLike v = true -> truthy v = true.
Proof. destruct v; simpl; auto; discriminate. Qed.

Lemma objectLike_notNullish v : objectLike v = true -> isNullish v = false.
Proof. destruct v; simpl; auto; discriminate. Qed.

Lemma resize_length elems i :
  length elems <= i -> length (resize elems i) = i.
Proof.
  intros H. unfold resize.
  rewrite length_app, length_take, length_replicate. lia.
Qed.

(** What [v[k] = x] leaves under [k], for an [x] that holds properties. *)
Lemma set_readback obj k x obj' :
  objectLike x = true -> set obj k x = Ok obj' ->
  prop obj' k = x /\ objectLike obj' = true.
Proof.
  intros Hx Hset.
  destruct obj as [| | | | |p|p|elems p]; simpl in Hset; try discriminate.
  - injection Hset as <-. simpl. rewrite assoc_assocSet_eq. auto.
  - injection Hset as <-. simpl. rewrite assoc_assocSet_eq. auto.
  - destruct (arrayIndex k) as [i|] eqn:Hi.
    + destruct (decide (i < length elems)) as [Hlt|Hge];
        injection Hset as <-; simpl; rewrite Hi; split; auto.
      * rewrite list_lookup_insert_eq by exact Hlt. reflexivity.
      * rewrite lookup_app_r by (rewrite resize_length; lia).
        rewrite resize_length by lia. rewrite Nat.sub_diag. reflexivity.
    + destruct (String.eqb k "length") eqn:Hl.
      * destruct x; simpl in Hx; discriminate.
      * injection Hset as <-. simpl. rewrite Hi, Hl, assoc_assocSet_eq. auto.
Qed.

Lemma charAt_not_objectLike s i : objectLike (orUndefined (charAt s i)) = false.
Proof.
  revert i. induction s as [|c s IH]; intros i; [reflexivity|].
  destruct i; simpl; [reflexivity|apply IH].
Qed.

Lemma prop_objectLike obj k :
  objectLike (prop obj k) = true -> objectLike obj = true.
Proof.
  destruct obj as [| | | |s|p|p|elems p]; simpl; try discriminate; auto.
  destruct (arrayIndex k); [rewrite charAt_not_objectLike; discriminate|].
  destruct (String.eqb k "length"); discriminate.
Qed.

(** A value that has a property-holding value under [k] takes an
    assignment to [k]. *)
Lemma set_over_child obj k x :
  objectLike (prop obj k) = true ->
  exists obj', set obj k x = Ok obj'.
Proof.
  intros Hc. pose proof (prop_objectLike obj k Hc) as Ho.
  destruct obj as [| | | |s|p|p|elems p]; simpl in *; try discriminate;
    eauto.
  destruct (arrayIndex k) as [i|].
  - destruct (decide (i < length elems)); eauto.
  - destruct (String.eqb k "length"); [discriminate|eauto].
Qed.

Lemma storeBack_readback obj k c' :
  objectLike (prop obj k) = true -> objectLike c' = true ->
  prop (storeBack obj k c') k = c'
  /\ objectLike (storeBack obj k c') = true.
Proof.
  intros Hc Hc'. destruct (set_over_child obj k c' Hc) as [obj' Hset].
  assert (Hs : storeBack obj k c' = obj').
  { unfold storeBack. rewrite Hset. destruct c'; simpl in Hc'; congruence. }
  rewrite Hs. eapply set_readback; eauto.
Qed.

(** Writing back the value that is already there changes nothing. *)
Lemma storeBack_same obj k : storeBack obj k (prop obj k) = obj.
Proof.
  unfold storeBack.
  destruct (objectLike (prop obj k)) eqn:Hc;
    [|destruct (prop obj k); simpl in Hc; try discriminate; reflexivity].
  assert (Hset : set obj k (prop obj k) = Ok obj).
  { destruct obj as [| | | |s|p|p|elems p];
      try (simpl in Hc; discriminate).
    - exfalso. apply prop_objectLike in Hc. discriminate.
    - simpl in *. destruct (assoc k p) as [c|] eqn:Ha; [|discriminate].
      simpl. rewrite assocSet_same by exact Ha. reflexivity.
    - simpl in *. destruct (assoc k p) as [c|] eqn:Ha; [|discriminate].
      simpl. rewrite assocSet_same by exact Ha. reflexivity.
    - simpl in *. destruct (arrayIndex k) as [i|].
      + destruct (elems !! i) as [c|] eqn:Hi; [|discriminate]. simpl.
        rewrite decide_True by (eapply lookup_lt_Some; eauto).
        rewrite list_insert_id by exact Hi. reflexivity.
      + destruct (String.eqb k "length"); [discriminate|].
        destruct (assoc k p) as [c|] eqn:Ha; [|discriminate].
        simpl. rewrite assocSet_same by exact Ha. reflexivity. }
  rewrite Hset. destruct (prop obj k); simpl in Hc; try discriminate;
    reflexivity.
Qed.

(** The three shapes a path can take on a tree. *)
Lemma walk_missing segments act obj :
  descend segments obj = Ok None -> walk segments act obj = (obj, Break).
Proof.
  revert obj. induction segments as [|seg r IH]; intros obj H; simpl in *.
  - discriminate.
  - destruct (get obj seg) as [child|] eqn:Hg; [|discriminate].
    simpl in H. destruct (truthy child) eqn:T; [|reflexivity].
    rewrite (IH child H).
    unfold get in Hg. destruct (isNullish obj); [discriminate|].
    injection Hg as <-. rewrite storeBack_same. reflexivity.
Qed.

Lemma walk_found segments act obj tgt tgt' :
  descend segments obj = Ok (Some tgt) ->
  act tgt = (tgt', Next) ->
  (tgt' = tgt \/ (objectLike tgt = true /\ objectLike tgt' = true)) ->
  exists obj',
    walk segments act obj = (obj', Next)
    /\ descend segments obj' = Ok (Some tgt')
    /\ (obj' = obj \/ (objectLike obj = true /\ objectLike obj' = true)).
Proof.
  intros Hd Hact Hkind. revert obj Hd.
  induction segments as [|seg r IH]; intros obj Hd; simpl in *.
  - injection Hd as ->. exists tgt'. rewrite Hact. auto.
  - destruct (get obj seg) as [child|] eqn:Hg; [|discriminate].
    simpl in Hd. destruct (truthy child) eqn:T; [|discriminate].
    destruct (IH child Hd) as (child' & Hw & Hd' & Hk).
    rewrite Hw. exists (storeBack obj seg child'). split; [reflexivity|].
    unfold get in Hg. destruct (isNullish obj) eqn:Hn; [discriminate|].
    injection Hg as <-.
    destruct Hk as [->|[Hc Hc']].
    + rewrite storeBack_same. unfold get. rewrite Hn. simpl. rewrite T.
      auto.
    + destruct (storeBack_readback obj seg child' Hc Hc') as [Hr Ho].
      unfold get. rewrite (objectLike_notNullish _ Ho). simpl.
      rewrite Hr, (objectLike_truthy _ Hc'). split; [exact Hd'|].
      right. split; [eapply prop_objectLike; eauto|exact Ho].
Qed.

Lemma walk_Next segments act obj obj' :
  walk segments act obj = (obj', Next) ->
  exists tgt tgt',
    descend segments obj = Ok (Some tgt) /\ act tgt = (tgt', Next).
Proof.
  revert obj obj'. induction segments as [|seg r IH]; intros obj obj' H;
    simpl in *.
  - eauto.
  - destruct (get obj seg) as [child|] eqn:Hg; [|discriminate]. simpl.
    destruct (truthy child) eqn:T; [|discriminate].
    destruct (walk r act child) as [child' s] eqn:Hw.
    injection H as _ ->. eapply IH; eauto.
Qed.

(** The test [segments.length > 1] only spares a walk over no segment. *)
Lemma walk_if_longer segments act obj :
  (if decide (1 < length segments)
   then walk (removelast segments) act obj else act obj)
  = walk (removelast segments) act obj.
Proof.
  destruct (decide (1 < length segments)) as [H|H]; [reflexivity|].
  destruct segments as [|a [|b r]]; simpl in *; try reflexivity. lia.
Qed.

(** Assigning [_touched] or [_errors] to a value that holds properties. *)
Lemma set_meta node k x :
  objectLike node = true -> isMeta k = true ->
  exists node',
    set node k x = Ok node'
    /\ prop node' k = x
    /\ objectLike node' = true
    /\ (forall k', isMeta k' = true -> k' <> k ->
        prop node' k' = prop node k').
Proof.
  intros Hn Hk.
  assert (Hidx : arrayIndex k = None /\ String.eqb k "length" = false).
  { unfold isMeta in Hk. apply orb_prop in Hk as [H|H];
      apply String.eqb_eq in H; subst k; split; reflexivity. }
  destruct Hidx as [Hidx Hlen].
  assert (Hframe : forall A (l : list (string * A)) k' (y : A),
             k' <> k -> assoc k' (assocSet k y l) = assoc k' l).
  { intros A l k' y Hne. apply assoc_assocSet_ne.
    apply String.eqb_neq. exact Hne. }
  destruct node as [| | | | |p|p|elems p]; simpl in Hn; try discriminate;
    simpl; rewrite ?Hidx, ?Hlen; eexists; (split; [reflexivity|]);
    simpl; rewrite ?Hidx, ?Hlen, assoc_assocSet_eq;
    (split; [reflexivity|]); (split; [reflexivity|]);
    intros k' Hk' Hne.
  - rewrite Hframe by exact Hne. reflexivity.
  - rewrite Hframe by exact Hne. reflexivity.
  - assert (Hidx' : arrayIndex k' = None /\ String.eqb k' "length" = false).
    { unfold isMeta in Hk'. apply orb_prop in Hk' as [H|H];
        apply String.eqb_eq in H; subst k'; split; reflexivity. }
    destruct Hidx' as [-> ->]. rewrite Hframe by exact Hne. reflexivity.
Qed.

Lemma markTouched_absent key obj :
  isNullish obj = false -> truthy (prop obj key) = false ->
  markTouched key obj = (obj, Next).
Proof.
  intros Hn Hf. unfold markTouched, get. rewrite Hn, Hf. reflexivity.
Qed.

Lemma markTouched_present key obj :
  objectLike (prop obj key) = true ->
  exists node',
    set (prop obj key) "_touched" (VBool true) = Ok node'
    /\ markTouched key obj = (storeBack obj key node', Next)
    /\ objectLike node' = true.
Proof.
  intros Hc.
  destruct (set_meta (prop obj key) "_touched" (VBool true) Hc eq_refl)
    as (node' & Hset & _ & Ho & _).
  exists node'. repeat split; auto.
  unfold markTouched, get.
  rewrite (objectLike_notNullish _ (prop_objectLike _ _ Hc)).
  rewrite (objectLike_truthy _ Hc), Hset. reflexivity.
Qed.

Lemma getFieldState_cases name st node :
  getFieldState name st = Ok node ->
  (node = VNull
   /\ (descend (removelast (segmentsOf name)) st = Ok None
       \/ exists tgt,
            descend (removelast (segmentsOf name)) st = Ok (Some tgt)
            /\ isNullish tgt = false
            /\ truthy (prop tgt (lastSegment (segmentsOf name))) = false))
  \/ (truthy node = true
      /\ exists tgt,
           descend (removelast (segmentsOf name)) st = Ok (Some tgt)
           /\ isNullish tgt = false
           /\ prop tgt (lastSegment (segmentsOf name)) = node).
Proof.
  unfold getFieldState. intros H.
  apply bind_Ok in H as (found & Hd & H).
  destruct found as [tgt|]; [|injection H as <-; auto].
  apply bind_Ok in H as (n & Hg & H).
  unfold get in Hg. destruct (isNullish tgt) eqn:Hn; [discriminate|].
  injection Hg as <-.
  destruct (truthy (prop tgt (lastSegment (segmentsOf name)))) eqn:T;
    injection H as <-.
  - right. split; [exact T|]. eauto.
  - left. split; [reflexivity|]. right. eauto.
Qed.

Lemma getFieldState_found name st tgt :
  descend (removelast (segmentsOf name)) st = Ok (Some tgt) ->
  objectLike (prop tgt (lastSegment (segmentsOf name))) = true ->
  getFieldState name st = Ok (prop tgt (lastSegment (segmentsOf name))).
Proof.
  intros Hd Hc. unfold getFieldState. rewrite Hd. cbn [mbind result_bind].
  unfold get.
  rewrite (objectLike_notNullish _ (prop_objectLike _ _ Hc)).
  cbn [mbind result_bind]. rewrite (objectLike_truthy _ Hc). reflexivity.
Qed.

Lemma updateFieldTouched_unfold name store :
  updateFieldTouched name store
  = let (_state, s) :=
      walk (removelast (segmentsOf name))
        (markTouched (lastSegment (segmentsOf name))) (contents store) in
    match s with
    | Thrown e => (Store.mutated store _state, Some e)
    | _ => (Store.set (Store.mutated store _state) _state, None)
    end.
Proof. unfold updateFieldTouched. rewrite walk_if_longer. reflexivity. Qed.

Lemma set_mutated_contents store v :
  contents (Store.set (Store.mutated store v) v) = v.
Proof.
  unfold Store.set. destruct (Store.safeNotEqual _ _); reflexivity.
Qed.

Lemma walk_unchanged segments act obj tgt :
  descend segments obj = Ok (Some tgt) -> act tgt = (tgt, Next) ->
  walk segments act obj = (obj, Next).
Proof.
  intros Hd Hact. revert obj Hd.
  induction segments as [|seg r IH]; intros obj Hd; simpl in *.
  - injection Hd as ->. exact Hact.
  - destruct (get obj seg) as [child|] eqn:Hg; [|discriminate].
    simpl in Hd. destruct (truthy child) eqn:T; [|discriminate].
    rewrite (IH child Hd).
    unfold get in Hg. destruct (isNullish obj); [discriminate|].
    injection Hg as <-. rewrite storeBack_same. reflexivity.
Qed.

(** X9.  [updateFieldTouched] on a name that [getFieldState] resolves to
    [null] leaves the state tree as it is and does not throw. *)
Theorem updateFieldTouched_unknown_field name store :
  getFieldState name (contents store) = Ok VNull ->
  contents (fst (updateFieldTouched name store)) = contents store
  /\ snd (updateFieldTouched name store) = None.
Proof.
  intros H. rewrite updateFieldTouched_unfold.
  apply getFieldState_cases in H as [[_ H]|[T _]]; [|discriminate].
  destruct H as [Hd|(tgt & Hd & Hn & Hf)].
  - rewrite (walk_missing _ _ _ Hd). split; [|reflexivity].
    apply set_mutated_contents.
  - rewrite (walk_unchanged _ _ _ tgt Hd (markTouched_absent _ _ Hn Hf)).
    split; [|reflexivity]. apply set_mutated_contents.
Qed.

Lemma updateFieldTouched_unknown_field_witness :
  getFieldState "author.name" blogTree = Ok VNull
  /\ contents (fst (updateFieldTouched "author.name" (mkWritable blogTree 1)))
     = blogTree.
Proof.
  split; [reflexivity|].
  apply (updateFieldTouched_unknown_field "author.name"
           (mkWritable blogTree 1)).
  reflexivity.
Defined.

Lemma updateFieldTouched_found name store node :
  getFieldState name (contents store) = Ok node ->
  objectLike node = true ->
  exists node',
    snd (updateFieldTouched name store) = None
    /\ getFieldState name (contents (fst (updateFieldTouched name store)))
       = Ok node'
    /\ prop node' "_touched" = VBool true
    /\ prop node' "_errors" = prop node "_errors".
Proof.
  intros H Hobj. rewrite updateFieldTouched_unfold.
  apply getFieldState_cases in H as [[-> _]|[_ (tgt & Hd & Hn & Hp)]];
    [discriminate|].
  subst node.
  destruct (set_meta _ "_touched" (VBool true) Hobj eq_refl)
    as (node' & Hset & Ht & Ho & Hframe).
  destruct (markTouched_present _ _ Hobj) as (node2 & Hset2 & Hact & _).
  rewrite Hset in Hset2. injection Hset2 as <-.
  destruct (storeBack_readback tgt (lastSegment (segmentsOf name)) node'
              Hobj Ho) as [Hr Hso].
  destruct (walk_found _ _ _ tgt _ Hd Hact) as (obj' & Hw & Hd' & _).
  { right. split; [eapply prop_objectLike; eauto|exact Hso]. }
  rewrite Hw. simpl. exists node'. split; [reflexivity|].
  rewrite set_mutated_contents.
  split; [rewrite (getFieldState_found _ _ _ Hd'); rewrite Hr; auto|].
  split; [exact Ht|].
  apply (Hframe "_errors" eq_refl). discriminate.
Qed.

(** X10.  [updateFieldTouched] on a name that [getFieldState] resolves to
    a node (an object, an array) does not throw; afterwards the node read
    back under that name has [_touched] true and the [_errors] it had. *)
Theorem updateFieldTouched_marks_field name store node :
  getFieldState name (contents store) = Ok node ->
  objectLike node = true ->
  snd (updateFieldTouched name store) = None
  /\ touchedAt name (contents (fst (updateFieldTouched name store)))
     = Ok (VBool true)
  /\ errorsAt name (contents (fst (updateFieldTouched name store)))
     = Ok (prop node "_errors").
Proof.
  intros H Hobj.
  destruct (updateFieldTouched_found name store node H Hobj)
    as (node' & Hs & Hg & Ht & He).
  split; [exact Hs|].
  unfold touchedAt, errorsAt. rewrite Hg. cbn [mbind result_bind].
  rewrite Ht, He. auto.
Qed.

Lemma updateFieldTouched_marks_field_witness :
  touchedAt "title" titleFlagged = Ok (VBool false)
  /\ touchedAt "title"
       (contents (fst (updateFieldTouched "title" (mkWritable titleFlagged 1))))
     = Ok (VBool true).
Proof.
  split; [reflexivity|].
  eapply (updateFieldTouched_marks_field "title" (mkWritable titleFlagged 1)).
  - reflexivity.
  - reflexivity.
Defined.

Lemma touchPolicy_same_touched a b touch :
  prop a "_touched" = prop b "_touched" ->
  touchPolicy a touch = touchPolicy b touch.
Proof. unfold touchPolicy. intros ->. reflexivity. Qed.

Lemma storeBack_set node k x node' :
  objectLike x = true -> set node k x = Ok node' ->
  storeBack node k x = node'.
Proof.
  intros Hx Hset. unfold storeBack. rewrite Hset.
  destruct x; simpl in Hx; congruence.
Qed.

(** [writeError] on an entry that is there and holds a list. *)
Lemma writeError_present key msg touchInvalid obj elems props :
  objectLike (prop obj key) = true ->
  prop (prop obj key) "_errors" = VArray elems props ->
  exists obj' node',
    writeError key msg touchInvalid obj = (obj', Next)
    /\ prop obj' key = node'
    /\ objectLike obj' = true
    /\ objectLike node' = true
    /\ prop node' "_errors" = VArray (elems ++ [VString msg]) props
    /\ prop node' "_touched" = touchPolicy (prop obj key) touchInvalid.
Proof.
  intros Hobj Herr.
  pose proof (objectLike_notNullish _ (prop_objectLike _ _ Hobj)) as Hn.
  destruct (set_meta (prop obj key) "_errors"
              (VArray (elems ++ [VString msg]) props) Hobj eq_refl)
    as (node1 & Hset1 & He1 & Ho1 & Hf1).
  destruct (storeBack_readback obj key node1 Hobj Ho1) as [Hr1 Hso1].
  destruct (set_meta node1 "_touched" (touchPolicy node1 touchInvalid)
              Ho1 eq_refl)
    as (node2 & Hset2 & Ht2 & Ho2 & Hf2).
  assert (Hc1 : objectLike (prop (storeBack obj key node1) key) = true)
    by (rewrite Hr1; exact Ho1).
  destruct (storeBack_readback _ key node2 Hc1 Ho2) as [Hr2 Hso2].
  exists (storeBack (storeBack obj key node1) key node2), node2.
  split; [|repeat split; auto].
  - unfold writeError, get. rewrite Hn, (objectLike_truthy _ Hobj).
    cbv zeta. rewrite Herr. cbn [truthy]. rewrite storeBack_same.
    rewrite Herr. cbn [push].
    rewrite (storeBack_set _ _ (VArray _ _) _ eq_refl Hset1), Hset2.
    reflexivity.
  - rewrite (Hf2 "_errors" eq_refl); [exact He1|discriminate].
  - rewrite Ht2. apply touchPolicy_same_touched.
    apply (Hf1 "_touched" eq_refl). discriminate.
Qed.

Lemma writeError_absent key msg touchInvalid obj obj' :
  truthy (prop obj key) = false ->
  writeError key msg touchInvalid obj = (obj', Next) ->
  exists obj0,
    set obj key madeEntry = Ok obj0
    /\ prop obj0 key = madeEntry
    /\ objectLike obj = true /\ objectLike obj0 = true
    /\ writeError key msg touchInvalid obj0 = (obj', Next).
Proof.
  intros Hf Hw. unfold writeError in Hw.
  destruct (get obj key) as [node|] eqn:Hg; [|discriminate].
  unfold get in Hg. destruct (isNullish obj) eqn:Hn; [discriminate|].
  injection Hg as <-. rewrite Hf in Hw.
  fold madeEntry in Hw.
  destruct (set obj key madeEntry) as [obj0|] eqn:Hset; [|discriminate].
  destruct (set_readback _ _ madeEntry _ eq_refl Hset) as [Hr Ho0].
  exists obj0. repeat split; auto.
  - destruct obj; simpl in Hset; try discriminate; reflexivity.
  - unfold writeError, get.
    rewrite (objectLike_notNullish _ Ho0).
    assert (T : truthy (prop obj0 key) = true) by (rewrite Hr; reflexivity).
    rewrite T. exact Hw.
Qed.

Lemma writeError_made key msg touchInvalid obj :
  prop obj key = madeEntry ->
  exists obj',
    writeError key msg touchInvalid obj = (obj', Next)
    /\ prop obj' key = madeEntryWith msg touchInvalid
    /\ objectLike obj' = true.
Proof.
  intros Hr.
  assert (Hobj : objectLike (prop obj key) = true) by (rewrite Hr; reflexivity).
  pose proof (objectLike_notNullish _ (prop_objectLike _ _ Hobj)) as Hn.
  set (node1 := VObject [("touched", VBool false);
                         ("_errors", VArray [VString msg] [])]).
  destruct (storeBack_readback obj key node1 Hobj eq_refl) as [Hr1 Hso1].
  assert (Hc1 : objectLike (prop (storeBack obj key node1) key) = true)
    by (rewrite Hr1; reflexivity).
  destruct (storeBack_readback _ key (madeEntryWith msg touchInvalid)
              Hc1 eq_refl) as [Hr2 Hso2].
  exists (storeBack (storeBack obj key node1) key
            (madeEntryWith msg touchInvalid)).
  split; [|split; assumption].
  unfold writeError, get. rewrite Hn. cbv zeta. rewrite Hr.
  cbn [truthy madeEntry prop orUndefined assoc String.eqb Ascii.eqb Bool.eqb
       emptyArray].
  assert (E : (if truthy (prop (prop obj key) "_errors")
               then Ok (prop obj key)
               else set (prop obj key) "_errors" emptyArray)
              = Ok (prop obj key)) by (rewrite Hr; reflexivity).
  rewrite E. rewrite storeBack_same, Hr.
  destruct touchInvalid; reflexivity.
Qed.

Lemma applyError_unfold touchInvalid p msg st :
  applyError touchInvalid (mkFieldError (Some p) msg) st
  = walk (removelast (segmentsOf p))
      (writeError (lastSegment (segmentsOf p)) msg touchInvalid) st.
Proof. unfold applyError. simpl. apply walk_if_longer. Qed.

(** X11.  One round of the loop of [setErrors], read back with
    [getFieldState]: for a violation whose path resolves to a node with a
    list of errors, the round ends normally, the list read back at the
    path is the former one with the message at its end, and [_touched] is
    what the policy of [touchInvalid] makes of the former flag. *)
Theorem applyError_records_message touchInvalid p msg st node elems props :
  getFieldState p st = Ok node ->
  prop node "_errors" = VArray elems props ->
  let after := applyError touchInvalid (mkFieldError (Some p) msg) st in
  snd after = Next
  /\ errorsAt p (fst after) = Ok (VArray (elems ++ [VString msg]) props)
  /\ touchedAt p (fst after) = Ok (touchPolicy node touchInvalid).
Proof.
  intros H Herr after. subst after. rewrite applyError_unfold.
  assert (Hobj : objectLike node = true).
  { eapply prop_objectLike. rewrite Herr. reflexivity. }
  apply getFieldState_cases in H as [[-> _]|[_ (tgt & Hd & Hn & Hp)]];
    [discriminate|].
  subst node.
  destruct (writeError_present _ msg touchInvalid _ _ _ Hobj Herr)
    as (tgt' & node' & Hact & Hr & Ho' & Hno & He & Ht).
  destruct (walk_found _ _ _ tgt tgt' Hd Hact) as (obj' & Hw & Hd' & _).
  { right. split; [eapply prop_objectLike; eauto|exact Ho']. }
  rewrite Hw. simpl. split; [reflexivity|].
  assert (Hg : getFieldState p obj' = Ok node').
  { rewrite (getFieldState_found _ _ _ Hd'); rewrite Hr; auto. }
  unfold touchedAt, errorsAt. rewrite Hg. cbn [mbind result_bind].
  rewrite He, Ht. auto.
Qed.

Lemma applyError_records_message_witness :
  let after :=
    applyError false (mkFieldError (Some "title") "title is too short")
      titleFlagged in
  snd after = Next
  /\ errorsAt "title" (fst after)
     = Ok (VArray ([VString "title is a required field"]
                   ++ [VString "title is too short"]) [])
  /\ touchedAt "title" (fst after) = Ok (VBool false).
Proof.
  apply (applyError_records_message false "title" "title is too short"
           titleFlagged
           (VObject [("_touched", VBool false);
                     ("_errors", messages ["title is a required field"])])
           [VString "title is a required field"] []);
    reflexivity.
Defined.

(** X12.  For a violation whose path resolves to [null], a round of the
    loop of [setErrors] that ends normally has made the node: read back at
    the path, it is [{ touched: false, _errors: [message], _touched:
    touchInvalid }], the key [touched] of the source included. *)
Theorem applyError_makes_missing_entry touchInvalid p msg st st' :
  getFieldState p st = Ok VNull ->
  applyError touchInvalid (mkFieldError (Some p) msg) st = (st', Next) ->
  getFieldState p st' = Ok (madeEntryWith msg touchInvalid).
Proof.
  intros H Ha. rewrite applyError_unfold in Ha.
  destruct (walk_Next _ _ _ _ Ha) as (tgt & tgt' & Hd & Hact).
  apply getFieldState_cases in H as [[_ H]|[T _]]; [|discriminate].
  destruct H as [Hd0|(tgt0 & Hd0 & Hn & Hf)]; [congruence|].
  assert (tgt0 = tgt) by congruence. subst tgt0.
  destruct (writeError_absent _ _ _ _ _ Hf Hact)
    as (obj0 & Hset & Hr & Ho & Ho0 & Hact0).
  destruct (writeError_made _ msg touchInvalid _ Hr) as (tgt2 & Hw2 & Hr2 & Ho2).
  assert (tgt2 = tgt') by congruence. subst tgt2.
  destruct (walk_found _ _ _ tgt tgt' Hd Hact) as (obj' & Hw & Hd' & _);
    [auto|].
  assert (obj' = st') by congruence. subst obj'.
  rewrite <- Hr2. apply getFieldState_found; [exact Hd'|].
  rewrite Hr2. reflexivity.
Qed.

Lemma applyError_makes_missing_entry_witness :
  getFieldState "subtitle"
    (fst (applyError true (mkFieldError (Some "subtitle") "unknown key")
            blogTree))
  = Ok (madeEntryWith "unknown key" true).
Proof.
  eapply (applyError_makes_missing_entry true "subtitle" "unknown key"
            blogTree).
  - reflexivity.
  - reflexivity.
Defined.

(** *** A round that throws *)

(** A round of the loop that throws has written nothing: every statement
    of [writeError] that can throw comes before the first assignment that
    goes through. *)
Lemma writeError_thrown key msg touchInvalid obj obj' e :
  writeError key msg touchInvalid obj = (obj', Thrown e) -> obj' = obj.
Proof.
  unfold writeError. intros H.
  destruct (get obj key) as [node|] eqn:Hg; [|congruence].
  unfold get in Hg. destruct (isNullish obj) eqn:Hn; [discriminate|].
  injection Hg as <-.
  destruct (truthy (prop obj key)) eqn:T.
  - cbv zeta in H.
    destruct (truthy (prop (prop obj key) "_errors")) eqn:Te.
    + rewrite storeBack_same in H.
      destruct (prop (prop obj key) "_errors") as [| | | | | | |elems props]
        eqn:He; simpl in H; try congruence.
      assert (Hobj : objectLike (prop obj key) = true).
      { eapply prop_objectLike. rewrite He. reflexivity. }
      destruct (writeError_present key msg touchInvalid obj elems props
                  Hobj He) as (o & n & Hw & _).
      unfold writeError, get in Hw. rewrite Hn, T in Hw. cbv zeta in Hw.
      rewrite He in Hw. cbn [truthy] in Hw.
      rewrite storeBack_same, He in Hw. simpl in Hw. congruence.
    + destruct (set (prop obj key) "_errors" emptyArray) as [node1|] eqn:Hs;
        [|congruence].
      exfalso.
      assert (Hobj : objectLike (prop obj key) = true).
      { destruct (prop obj key); simpl in Hs; try discriminate; reflexivity. }
      destruct (set_meta (prop obj key) "_errors" emptyArray Hobj eq_refl)
        as (n1 & Hs1 & He1 & Ho1 & _).
      rewrite Hs in Hs1. injection Hs1 as <-.
      destruct (storeBack_readback obj key node1 Hobj Ho1) as [Hr1 Hso1].
      assert (Hc : objectLike (prop (storeBack obj key node1) key) = true)
        by (rewrite Hr1; exact Ho1).
      destruct (writeError_present key msg touchInvalid
                  (storeBack obj key node1) [] [] Hc)
        as (o & n & Hw & _); [rewrite Hr1; exact He1|].
      unfold writeError, get in Hw.
      rewrite (objectLike_notNullish _ Hso1) in Hw.
      rewrite (objectLike_truthy _ Hc) in Hw. cbv zeta in Hw.
      rewrite Hr1, He1 in Hw. cbn [truthy emptyArray] in Hw.
      destruct (push (prop node1 "_errors") (VString msg)) as [errors0|];
        [|discriminate Hw].
      destruct (set (storeBack node1 "_errors" errors0) "_touched" _);
        [discriminate H|discriminate Hw].
  - fold madeEntry in H.
    destruct (set obj key madeEntry) as [obj0|] eqn:Hs; [|congruence].
    exfalso.
    destruct (set_readback _ _ madeEntry _ eq_refl Hs) as [Hr Ho0].
    destruct (writeError_made key msg touchInvalid obj0 Hr) as (o & Hw & _).
    unfold writeError, get in Hw.
    rewrite (objectLike_notNullish _ Ho0) in Hw.
    assert (T0 : truthy (prop obj0 key) = true) by (rewrite Hr; reflexivity).
    rewrite T0 in Hw. congruence.
Qed.

Lemma walk_thrown segments act obj obj' e :
  (forall o o' e', act o = (o', Thrown e') -> o' = o) ->
  walk segments act obj = (obj', Thrown e) -> obj' = obj.
Proof.
  intros Hact. revert obj obj'.
  induction segments as [|seg r IH]; intros obj obj' H; simpl in H.
  - eapply Hact; eauto.
  - destruct (get obj seg) as [child|] eqn:Hg; [|congruence].
    destruct (truthy child); [|congruence].
    destruct (walk r act child) as [child' s] eqn:Hw.
    injection H as <- ->. rewrite (IH _ _ Hw).
    unfold get in Hg. destruct (isNullish obj); [discriminate|].
    injection Hg as <-. apply storeBack_same.
Qed.

Lemma applyError_thrown touchInvalid error st left e :
  applyError touchInvalid error st = (left, Thrown e) -> left = st.
Proof.
  unfold applyError. destruct (path error) as [p|]; [|congruence].
  rewrite walk_if_longer. apply walk_thrown.
  intros o o' e'. apply writeError_thrown.
Qed.

(** C5, as the code has it.  When applying a violation throws, after
    the violations before it were applied, [setErrors] still returns: the
    throw is caught.  The store's subscribers are not told, and the tree
    the store holds is not the tree from before the pass but exactly the
    tree the pass had reached: the clearing pass and the messages of the
    earlier violations are in it, and the violation that threw has
    written nothing. *)
Theorem setErrors_failure_keeps_what_was_applied
    store pre bad post reached e touchValid touchInvalid :
  appliedAll touchInvalid pre (clearErrors touchValid (contents store))
    = Some reached ->
  snd (applyError touchInvalid bad reached) = Thrown e ->
  let after :=
    setErrors store (ValidationError (pre ++ bad :: post))
      touchValid touchInvalid in
  contents after = reached /\ published after = published store.
Proof.
  intros Hpre Hbad. cbv zeta.
  destruct (applyError touchInvalid bad reached) as [left s] eqn:Ha.
  simpl in Hbad. subst s.
  pose proof (applyError_thrown _ _ _ _ _ Ha) as ->.
  unfold setErrors. simpl.
  rewrite (applyErrors_reaches_throw _ _ _ _ _ _ _ _ Hpre Ha).
  split; reflexivity.
Qed.

(** With the message for [title] applied before the violation without a
    path throws. *)
Lemma setErrors_failure_keeps_what_was_applied_witness :
  let store := mkWritable blogTree 1 in
  let after :=
    setErrors store
      (ValidationError ([missingTitle] ++ rootViolation :: [staleUser]))
      false false in
  appliedAll false [missingTitle] (clearErrors false (contents store))
    = Some titleFlagged
  /\ contents after = titleFlagged
  /\ published after = published store.
Proof.
  cbv zeta.
  assert (H1 : appliedAll false [missingTitle]
                 (clearErrors false (contents (mkWritable blogTree 1)))
               = Some titleFlagged) by (vm_compute; reflexivity).
  assert (H2 : snd (applyError false rootViolation titleFlagged)
               = Thrown TypeError) by (vm_compute; reflexivity).
  split; [exact H1|].
  exact (setErrors_failure_keeps_what_was_applied
           (mkWritable blogTree 1) [missingTitle] rootViolation [staleUser]
           titleFlagged TypeError false false H1 H2).
Defined.

(** ** The class list of a control *)

Lemma contains_filter t token classes :
  ClassList.contains t
    (List.filter (fun c => negb (String.eqb token c)) classes)
  = ClassList.contains t classes && negb (String.eqb t token).
Proof.
  unfold ClassList.contains.
  induction classes as [|c r IH]; [reflexivity|]. simpl.
  destruct (String.eqb token c) eqn:E; simpl.
  - rewrite IH. apply String.eqb_eq in E. subst c.
    destruct (String.eqb t token); simpl;
      [rewrite andb_false_r|]; reflexivity.
  - rewrite IH. destruct (String.eqb t c) eqn:E'; simpl; [|reflexivity].
    apply String.eqb_eq in E'. subst c.
    rewrite String.eqb_sym, E. reflexivity.
Qed.

Lemma contains_app t classes token :
  ClassList.contains t (classes ++ [token])%list
  = ClassList.contains t classes || String.eqb t token.
Proof.
  unfold ClassList.contains. rewrite existsb_app. simpl.
  rewrite orb_false_r. reflexivity.
Qed.

Lemma contains_add t token classes classes' :
  ClassList.add token classes = Some classes' ->
  ClassList.contains t classes'
  = ClassList.contains t classes || String.eqb t token.
Proof.
  unfold ClassList.add. destruct (ClassList.validToken token); [|discriminate].
  intros [= <-]. destruct (ClassList.contains token classes) eqn:E.
  - destruct (String.eqb t token) eqn:E'; [|rewrite orb_false_r; reflexivity].
    apply String.eqb_eq in E'. subst t. rewrite E. reflexivity.
  - apply contains_app.
Qed.

Lemma filter_filter_same token (classes : list string) :
  List.filter (fun c => negb (String.eqb token c))
    (List.filter (fun c => negb (String.eqb token c)) classes)
  = List.filter (fun c => negb (String.eqb token c)) classes.
Proof.
  induction classes as [|c r IH]; [reflexivity|]. simpl.
  destruct (String.eqb token c) eqn:E; simpl; [exact IH|].
  rewrite E. simpl. rewrite IH. reflexivity.
Qed.

Lemma checkValidity_contains css name state classList node c :
  ClassList.validToken (Css.validClass css) = true ->
  ClassList.validToken (Css.invalidClass css) = true ->
  Css.validClass css <> Css.invalidClass css ->
  name <> "" ->
  getFieldState name state = Ok node ->
  ClassList.contains c (checkValidity css name state classList)
  = if String.eqb c (Css.invalidClass css) then wearsInvalid css node
    else if String.eqb c (Css.validClass css) then wearsValid css node
    else ClassList.contains c classList.
Proof.
  intros Hv Hi Hne Hname Hg.
  unfold checkValidity, wearsInvalid, wearsValid, ClassList.remove,
    ClassList.add.
  apply String.eqb_neq in Hname. rewrite Hname, Hg, Hv, Hi.
  set (rest := List.filter _ (List.filter _ classList)).
  assert (Hrest : forall t, ClassList.contains t rest
            = ClassList.contains t classList
              && negb (String.eqb t (Css.validClass css))
              && negb (String.eqb t (Css.invalidClass css))).
  { intros t. unfold rest. rewrite !contains_filter. reflexivity. }
  pose proof (Hrest (Css.validClass css)) as Rv.
  pose proof (Hrest (Css.invalidClass css)) as Ri.
  rewrite String.eqb_refl in Rv, Ri.
  rewrite andb_false_r in Ri. simpl in Rv. rewrite andb_false_r in Rv.
  simpl in Rv.
  assert (Hboth : String.eqb c (Css.invalidClass css) = true ->
                  String.eqb c (Css.validClass css) = false).
  { intros E. apply String.eqb_eq in E. subst c.
    apply String.eqb_neq. congruence. }
  destruct (truthy (prop node "_touched"));
    destruct (truthy (prop (prop node "_errors") "length"));
    destruct (Css.useInvalid css); destruct (Css.useValid css);
    simpl; rewrite ?Ri, ?Rv; simpl; rewrite ?contains_app, Hrest;
    destruct (String.eqb c (Css.invalidClass css)) eqn:Ei;
    rewrite ?(Hboth eq_refl);
    destruct (String.eqb c (Css.validClass css)) eqn:Ev;
    simpl; rewrite ?andb_true_r, ?andb_false_r, ?orb_false_r, ?orb_true_r;
    reflexivity.
Qed.

(** X13.  After [checkValidity] on a named control, with two distinct
    class names that are valid tokens: the control has the invalid class
    exactly when [useInvalid] is set and the field is touched with a
    non-empty list of errors, the valid class exactly when [useValid] is
    set and the field is touched without errors, and every other class
    exactly when it had it before. *)
Theorem checkValidity_classes css name state classList node :
  ClassList.validToken (Css.validClass css) = true ->
  ClassList.validToken (Css.invalidClass css) = true ->
  Css.validClass css <> Css.invalidClass css ->
  name <> "" ->
  getFieldState name state = Ok node ->
  let after := checkValidity css name state classList in
  ClassList.contains (Css.invalidClass css) after = wearsInvalid css node
  /\ ClassList.contains (Css.validClass css) after = wearsValid css node
  /\ (forall c, c <> Css.validClass css -> c <> Css.invalidClass css ->
      ClassList.contains c after = ClassList.contains c classList).
Proof.
  intros Hv Hi Hne Hname Hg after. subst after.
  assert (Evi : String.eqb (Css.validClass css) (Css.invalidClass css) = false)
    by (apply String.eqb_neq; exact Hne).
  repeat split.
  - rewrite (checkValidity_contains _ _ _ _ node) by assumption.
    rewrite String.eqb_refl. reflexivity.
  - rewrite (checkValidity_contains _ _ _ _ node) by assumption.
    rewrite Evi, String.eqb_refl. reflexivity.
  - intros c H1 H2. apply String.eqb_neq in H1, H2.
    rewrite (checkValidity_contains _ _ _ _ node) by assumption.
    rewrite H1, H2. reflexivity.
Qed.

Lemma checkValidity_classes_witness :
  let after := checkValidity Css.defaults "title" titleFlagged ["form-control"] in
  ClassList.contains "is-invalid" after = false
  /\ ClassList.contains "is-valid" after = false
  /\ (forall c, c <> "is-valid" -> c <> "is-invalid" ->
      ClassList.contains c after = ClassList.contains c ["form-control"]).
Proof.
  apply (checkValidity_classes Css.defaults "title" titleFlagged
           ["form-control"]
           (VObject [("_touched", VBool false);
                     ("_errors", messages ["title is a required field"])]));
    try reflexivity; discriminate.
Defined.

(** X14.  [checkValidity] run again on the same state changes nothing on
    the class list, whatever the configuration: the subscriptions and the
    listeners of a control may run it any number of times. *)
Theorem checkValidity_twice css name state classList :
  checkValidity css name state (checkValidity css name state classList)
  = checkValidity css name state classList.
Proof.
  unfold checkValidity.
  destruct (String.eqb name ""); [reflexivity|].
  destruct (getFieldState name state) as [node|]; [|reflexivity].
  unfold ClassList.remove, ClassList.add.
  destruct (ClassList.validToken (Css.validClass css)) eqn:Hv;
    [|reflexivity].
  destruct (ClassList.validToken (Css.invalidClass css)) eqn:Hi;
    [|rewrite filter_filter_same; reflexivity].
  set (fv := fun c => negb (String.eqb (Css.validClass css) c)).
  set (fi := fun c => negb (String.eqb (Css.invalidClass css) c)).
  assert (Hclean : forall l : list string,
            List.filter fi (List.filter fv (List.filter fi (List.filter fv l)))
            = List.filter fi (List.filter fv l)).
  { intros l. induction l as [|c r IH]; [reflexivity|]. simpl.
    destruct (fv c) eqn:E1; simpl; [|exact IH].
    destruct (fi c) eqn:E2; simpl; [|exact IH].
    rewrite E1. simpl. rewrite E2. rewrite IH. reflexivity. }
  assert (Hadd : forall (l : list string) token,
            (token = Css.validClass css \/ token = Css.invalidClass css) ->
            List.filter fi (List.filter fv
              (List.filter fi (List.filter fv l) ++ [token])%list)
            = List.filter fi (List.filter fv l)).
  { intros l token Ht.
    rewrite !List.filter_app, Hclean. simpl.
    assert (E : fv token && fi token = false).
    { unfold fv, fi. destruct Ht as [->| ->]; rewrite String.eqb_refl;
        simpl; [reflexivity|apply andb_false_r]. }
    destruct (fv token); simpl in *; [|apply app_nil_r].
    rewrite E. apply app_nil_r. }
  assert (Hnone : forall (l : list string) token,
            (token = Css.validClass css \/ token = Css.invalidClass css) ->
            ClassList.contains token (List.filter fi (List.filter fv l))
            = false).
  { intros l token Ht. unfold fi, fv. rewrite !contains_filter.
    destruct Ht as [->| ->]; rewrite String.eqb_refl; simpl;
      rewrite ?andb_false_r; reflexivity. }
  destruct (truthy (prop node "_touched") &&
            truthy (prop (prop node "_errors") "length")).
  - destruct (Css.useInvalid css); [|apply Hclean].
    rewrite !Hnone by auto. rewrite Hadd by auto. reflexivity.
  - destruct (truthy (prop node "_touched") &&
              negb (truthy (prop (prop node "_errors") "length")));
      [|apply Hclean].
    destruct (Css.useValid css); [|apply Hclean].
    rewrite !Hnone by auto. rewrite Hadd by auto. reflexivity.
Qed.

Lemma hasErrors_length node elems props :
  prop node "_errors" = VArray elems props ->
  truthy (prop (prop node "_errors") "length") = hasErrors node.
Proof.
  intros H. unfold hasErrors. rewrite H. destruct elems; reflexivity.
Qed.

(** X15.  A change event on a named control whose field has a node with a
    list of errors, [validateOnChange] and the css classes being enabled:
    the form and the field are touched afterwards, and the control has the
    invalid class exactly when [useInvalid] is set and the field has
    errors, the valid class exactly when [useValid] is set and it has
    none. *)
Theorem changeListener_shows_validity config css name form classList
    node elems props :
  onChange config = true ->
  enabled config = true ->
  ClassList.validToken (Css.validClass css) = true ->
  ClassList.validToken (Css.invalidClass css) = true ->
  Css.validClass css <> Css.invalidClass css ->
  name <> "" ->
  getFieldState name (contents (state form)) = Ok node ->
  prop node "_errors" = VArray elems props ->
  let after := changeListener config css name (Some name) form classList in
  isTouched (fst after) = true
  /\ touchedAt name (contents (state (fst after))) = Ok (VBool true)
  /\ ClassList.contains (Css.invalidClass css) (snd after)
     = Css.useInvalid css && hasErrors node
  /\ ClassList.contains (Css.validClass css) (snd after)
     = Css.useValid css && negb (hasErrors node).
Proof.
  intros Hgate Hen Hv Hi Hne Hname Hg Herr after. subst after.
  assert (Hobj : objectLike node = true).
  { eapply prop_objectLike. rewrite Herr. reflexivity. }
  destruct (updateFieldTouched_found name (state form) node Hg Hobj)
    as (node' & Hs & Hg' & Ht & He).
  unfold changeListener, listener, handleChange. rewrite Hgate, Hen.
  pose proof Hname as Hname'. apply String.eqb_neq in Hname'.
  rewrite Hname'.
  destruct (updateFieldTouched name (state form)) as [state' thrown].
  simpl in Hs, Hg'. subst thrown. cbn [fst snd state isTouched].
  split; [reflexivity|].
  split; [unfold touchedAt; rewrite Hg'; cbn [mbind result_bind];
          rewrite Ht; reflexivity|].
  assert (Evi : String.eqb (Css.validClass css) (Css.invalidClass css) = false)
    by (apply String.eqb_neq; exact Hne).
  rewrite !(checkValidity_contains _ _ _ _ node') by assumption.
  rewrite Evi, !String.eqb_refl. unfold wearsInvalid, wearsValid.
  rewrite Ht, He, (hasErrors_length _ _ _ Herr). auto.
Qed.

Lemma changeListener_shows_validity_witness :
  let after :=
    changeListener lenientForm Css.defaults "title" (Some "title")
      flaggedForm ["form-control"] in
  isTouched (fst after) = true
  /\ touchedAt "title" (contents (state (fst after))) = Ok (VBool true)
  /\ ClassList.contains "is-invalid" (snd after) = true
  /\ ClassList.contains "is-valid" (snd after) = false.
Proof.
  apply (changeListener_shows_validity lenientForm Css.defaults "title"
           flaggedForm ["form-control"]
           (VObject [("_touched", VBool false);
                     ("_errors", messages ["title is a required field"])])
           [VString "title is a required field"] []);
    try reflexivity; discriminate.
Defined.

(** One round of the loop of [createValidatedState] on a record assigns
    the key a value whose [_errors] is empty. *)
Lemma validatedField_sets data key s props state' :
  validatedField data key s (VObject props) = Ok state' ->
  exists v,
    state' = VObject (assocSet key v props)
    /\ prop v "_errors" = emptyArray
    /\ (s = SOther -> v = leafState (seedTouched (VObject props) key)).
Proof.
  destruct s as [inner|fields|]; simpl; intros H.
  - destruct (if truthy (prop data key) then prop data key else emptyArray)
      as [| | | | | | |values vprops]; try discriminate.
    apply bind_Ok in H as (elems & _ & H). injection H as <-.
    eexists. split; [reflexivity|]. split; [reflexivity|discriminate].
  - destruct (negb (isEmpty fields)).
    + apply bind_Ok in H as (dk & _ & H).
      apply bind_Ok in H as (sub & _ & H). injection H as <-.
      eexists. split; [reflexivity|]. split; [|discriminate].
      unfold withErrorsReset. simpl. rewrite assoc_assocSet_eq. reflexivity.
    + injection H as <-. eexists. split; [reflexivity|].
      split; [reflexivity|discriminate].
  - injection H as <-. eexists. split; [reflexivity|].
    split; [reflexivity|auto].
Qed.

Lemma prop_assocSet_ne k k' v props :
  String.eqb k k' = false ->
  prop (VObject (assocSet k' v props)) k = prop (VObject props) k.
Proof. intros H. simpl. rewrite assoc_assocSet_ne by exact H. reflexivity. Qed.

Lemma prop_assocSet_eq k v props :
  prop (VObject (assocSet k v props)) k = v.
Proof. simpl. rewrite assoc_assocSet_eq. reflexivity. Qed.

Lemma forIn_frame {S : Type} Q (body : string -> S -> value -> result value)
    entries k :
  assigns Q body ->
  Forall (fun ks => String.eqb k (fst ks) = false) entries ->
  forall props state',
    forIn body entries (VObject props) = Ok state' ->
    prop state' k = prop (VObject props) k.
Proof.
  intros Hbody.
  induction 1 as [|[k0 s0] r Hne _ IH]; simpl; intros props state' H.
  - injection H as <-. reflexivity.
  - destruct (body k0 s0 (VObject props)) as [st1|] eqn:Hf; [|discriminate].
    destruct (Hbody _ _ _ _ Hf) as (v & -> & _).
    rewrite (IH _ _ H). apply prop_assocSet_ne. exact Hne.
Qed.

Lemma forIn_assigned {S : Type} Q
    (body : string -> S -> value -> result value) entries :
  assigns Q body ->
  forall props state',
    forIn body entries (VObject props) = Ok state' ->
    Forall (fun ks => Q (prop state' (fst ks))) entries.
Proof.
  intros Hbody.
  induction entries as [|[k0 s0] r IH]; simpl; intros props state' H.
  - constructor.
  - destruct (body k0 s0 (VObject props)) as [st1|] eqn:Hf; [|discriminate].
    destruct (Hbody _ _ _ _ Hf) as (v & -> & Hv).
    pose proof (IH _ _ H) as Hr. constructor; [|exact Hr]. simpl.
    destruct (existsb (fun ks => String.eqb k0 (fst ks)) r) eqn:E.
    + apply existsb_exists in E as ([k1 s1] & Hin & Hk). simpl in Hk.
      apply String.eqb_eq in Hk. subst k1.
      rewrite Forall_forall in Hr. apply (Hr (k0, s1)).
      apply list_elem_of_In. exact Hin.
    + rewrite (forIn_frame Q body r k0 Hbody)
        with (props := assocSet k0 v props).
      * rewrite prop_assocSet_eq. exact Hv.
      * apply Forall_forall. intros ks Hin.
        destruct (String.eqb k0 (fst ks)) eqn:E'; [|reflexivity].
        assert (existsb (fun ks => String.eqb k0 (fst ks)) r = true).
        { apply existsb_exists. exists ks.
          split; [apply list_elem_of_In; exact Hin|exact E']. }
        congruence.
      * exact H.
Qed.

Lemma validatedField_assigns data :
  assigns errorsEmpty (validatedField data).
Proof.
  intros key s props state' H.
  destruct (validatedField_sets _ _ _ _ _ H) as (v & Hv & He & _). eauto.
Qed.

Lemma createValidatedState_frame data schema k :
  Forall (fun ks => String.eqb k (fst ks) = false) schema ->
  forall props state',
    createValidatedState data schema (VObject props) = Ok state' ->
    prop state' k = prop (VObject props) k.
Proof.
  apply (forIn_frame errorsEmpty). apply validatedField_assigns.
Qed.

(** X16.  When [createValidatedState] returns on a record, every key the
    schema declares has an entry whose [_errors] is the empty list,
    whatever the previous state held there. *)
Theorem createValidatedState_resets_declared_errors data schema props state' :
  createValidatedState data schema (VObject props) = Ok state' ->
  Forall (fun ks => prop (prop state' (fst ks)) "_errors" = emptyArray)
    schema.
Proof.
  apply (forIn_assigned errorsEmpty). apply validatedField_assigns.
Qed.

Lemma createValidatedState_resets_declared_errors_witness :
  Forall (fun ks => prop (prop blogTree (fst ks)) "_errors" = emptyArray)
    blogFields.
Proof.
  apply (createValidatedState_resets_declared_errors noUsers blogFields []).
  reflexivity.
Defined.

Lemma rawField_assigns : assigns errorsEmpty rawField.
Proof.
  intros key child props state' H. unfold rawField, rawFieldWith in H.
  assert (Hleaf : forall st,
             set (VObject props) key
               (leafState (seedTouched (VObject props) key)) = Ok st ->
             exists v, st = VObject (assocSet key v props) /\ errorsEmpty v).
  { intros st [= <-]. eexists. split; reflexivity. }
  assert (Hobj : forall st,
             (prev ← get (VObject props) key;
              sub ← createRawState child (spread prev);
              set (VObject props) key (withErrorsReset sub)) = Ok st ->
             exists v, st = VObject (assocSet key v props) /\ errorsEmpty v).
  { intros st Hst. apply bind_Ok in Hst as (prev & _ & Hst).
    apply bind_Ok in Hst as (sub & _ & Hst). injection Hst as <-.
    eexists. split; [reflexivity|].
    unfold errorsEmpty, withErrorsReset. simpl.
    rewrite assoc_assocSet_eq. reflexivity. }
  destruct child; try exact (Hleaf _ H); try exact (Hobj _ H).
  apply bind_Ok in H as (elems' & _ & H). injection H as <-.
  eexists. split; reflexivity.
Qed.

(** X17.  [createRawState] of a record over a record never throws, and
    every key of the data has an entry whose [_errors] is the empty list. *)
Theorem createRawState_entry_per_key fields props :
  exists state',
    createRawState (VObject fields) (VObject props) = Ok state'
    /\ Forall (fun kc => prop (prop state' (fst kc)) "_errors" = emptyArray)
         fields.
Proof.
  destruct (proj1 (createRawState_total (VObject fields)) props)
    as [props' H].
  exists (VObject props'). split; [exact H|].
  rewrite createRawState_unfold in H.
  exact (forIn_assigned errorsEmpty rawField fields rawField_assigns _ _ H).
Qed.

(** What the loop leaves under a scalar field of a schema with distinct
    keys. *)
Lemma createValidatedState_scalar data schema k :
  distinctKeys schema = true ->
  In (k, SOther) schema ->
  forall props state',
    createValidatedState data schema (VObject props) = Ok state' ->
    prop state' k = leafState (seedTouched (VObject props) k).
Proof.
  induction schema as [|[k0 s0] r IH]; intros Hd Hin props state' H;
    [destruct Hin|].
  apply distinctKeys_cons in Hd as [Hne Hd].
  unfold createValidatedState in H. simpl in H.
  destruct (validatedField data k0 s0 (VObject props)) as [st1|] eqn:Hf;
    [|discriminate].
  destruct (validatedField_sets _ _ _ _ _ Hf) as (v & -> & _ & Hs).
  destruct Hin as [Heq|Hin].
  - injection Heq as -> ->.
    assert (Hne' : Forall (fun ks : string * Schema =>
                             String.eqb k (fst ks) = false) r).
    { eapply Forall_impl; [exact Hne|]. simpl. intros ks E.
      rewrite String.eqb_sym. exact E. }
    rewrite (createValidatedState_frame data r k Hne' _ _ H).
    rewrite prop_assocSet_eq. auto.
  - assert (Hk : String.eqb k k0 = false).
    { rewrite Forall_forall in Hne.
      apply (Hne (k, SOther)). apply list_elem_of_In. exact Hin. }
    rewrite (IH Hd Hin _ _ H). unfold seedTouched.
    rewrite prop_assocSet_ne by exact Hk. reflexivity.
Qed.

Lemma json_prop props k c :
  assoc k props = Some c -> unserializable c = false ->
  prop (json (VObject props)) k = json c.
Proof.
  intros Ha Hu. induction props as [|[k' c'] r IH]; [discriminate|].
  simpl in Ha. simpl. destruct (String.eqb k k') eqn:E.
  - injection Ha as ->. rewrite Hu. simpl. rewrite E. reflexivity.
  - destruct (unserializable c'); [exact (IH Ha)|].
    simpl. rewrite E. exact (IH Ha).
Qed.

Lemma orUndefined_Some (o : option value) props :
  orUndefined o = VObject props -> o = Some (VObject props).
Proof. destruct o; simpl; congruence. Qed.

(** X18.  [updateState] with a schema of distinct keys rebuilds a scalar
    field from its former [_touched] alone: the node becomes
    [{ _touched: flag, _errors: [] }] with the flag it had. *)
Theorem updateState_keeps_touched_of_scalar_fields form sch state props k
    nprops touched after :
  contents state = VObject props ->
  distinctKeys (fields sch) = true ->
  In (k, SOther) (fields sch) ->
  prop (VObject props) k = VObject nprops ->
  prop (VObject nprops) "_touched" = VBool touched ->
  updateState form (Some sch) state = Ok after ->
  prop (contents after) k = leafState (VBool touched).
Proof.
  intros Hst Hd Hin Hnode Ht H. unfold updateState in H. rewrite Hst in H.
  unfold jsonClone in H. cbn [unserializable mbind result_bind] in H.
  apply bind_Ok in H as (st & Hc & H). injection H as <-.
  assert (Hcontents : contents (Store.set state st) = st).
  { unfold Store.set. rewrite Hst. reflexivity. }
  rewrite Hcontents.
  remember (json (VObject props)) as previous eqn:Hp.
  assert (Hprev : exists props', previous = VObject props')
    by (subst previous; simpl; eauto).
  destruct Hprev as [props' Hp'].
  rewrite Hp' in Hc.
  rewrite (createValidatedState_scalar _ _ k Hd Hin _ _ Hc).
  rewrite <- Hp', Hp. unfold seedTouched.
  simpl in Hnode. apply orUndefined_Some in Hnode.
  rewrite (json_prop _ _ _ Hnode eq_refl).
  simpl in Ht.
  assert (Ha : assoc "_touched" nprops = Some (VBool touched)).
  { destruct (assoc "_touched" nprops); simpl in Ht; congruence. }
  rewrite (json_prop _ _ _ Ha eq_refl). destruct touched; reflexivity.
Qed.

Lemma updateState_keeps_touched_of_scalar_fields_witness :
  exists after,
    updateState (mkWritable noUsers 0) (Some blogSchema)
      (mkWritable titleTouched 1) = Ok after
    /\ prop (contents after) "title" = leafState (VBool true).
Proof.
  eexists. split; [reflexivity|].
  eapply (updateState_keeps_touched_of_scalar_fields
            (mkWritable noUsers 0) blogSchema (mkWritable titleTouched 1)
            _ "title" _ true).
  - reflexivity.
  - reflexivity.
  - left. reflexivity.
  - reflexivity.
  - reflexivity.
  - reflexivity.
Defined.

(** ** Raised flags through the clearing pass *)

Lemma assoc_clearFields touch k props :
  isMeta k = false ->
  assoc k (clearFields touch props)
  = option_map (clearField touch) (assoc k props).
Proof.
  intros Hk. induction props as [|[k' c] r IH]; [reflexivity|].
  rewrite clearFields_cons. simpl.
  destruct (String.eqb k k') eqn:E; [|exact IH].
  apply String.eqb_eq in E. subst k'. rewrite Hk. reflexivity.
Qed.

Lemma recordsAlong_object segments node :
  recordsAlong segments node = true -> exists props, node = VObject props.
Proof. destruct segments, node; simpl; try discriminate; eauto. Qed.

(** Under a key that is no metadata, a cleared field holds what the
    cleared record holds. *)
Lemma clearField_object touch props :
  exists props',
    clearField touch (VObject props) = VObject props'
    /\ forall k, isMeta k = false ->
         assoc k props' = assoc k (clearFields touch props).
Proof.
  eexists. split; [reflexivity|]. intros k Hk.
  unfold isMeta in Hk. apply orb_false_elim in Hk as [H1 H2].
  rewrite !assoc_assocSet_ne by assumption.
  rewrite clearErrors_unfold. reflexivity.
Qed.

Lemma recordsAlong_cleared touch segments :
  forall node,
    recordsAlong segments node = true ->
    recordsAlong segments (clearField touch node) = true
    /\ recordsAlong segments (clearErrors touch node) = true.
Proof.
  induction segments as [|k r IH]; intros node H;
    destruct (recordsAlong_object _ _ H) as [props ->].
  - split; reflexivity.
  - simpl in H. apply andb_prop in H as [Hk H].
    apply negb_true_iff in Hk.
    destruct (assoc k props) as [c|] eqn:Ha; [|discriminate].
    destruct (IH c H) as [Hc _].
    assert (Hroot : recordsAlong (k :: r) (clearErrors touch (VObject props))
                    = true).
    { rewrite clearErrors_unfold. simpl.
      rewrite Hk, assoc_clearFields, Ha by exact Hk. exact Hc. }
    split; [|exact Hroot].
    destruct (clearField_object touch props) as (props' & -> & Hp').
    simpl. rewrite Hk, Hp' by exact Hk.
    rewrite assoc_clearFields, Ha by exact Hk. exact Hc.
Qed.

Lemma recordsAlong_truthy segments node :
  recordsAlong segments node = true -> truthy node = true.
Proof.
  intros H. destruct (recordsAlong_object _ _ H) as [props ->]. reflexivity.
Qed.

Lemma recordsAlong_step k r props :
  recordsAlong (k :: r) (VObject props) = true ->
  recordsAlong r (prop (VObject props) k) = true.
Proof.
  simpl. intros H. apply andb_prop in H as [_ H].
  destruct (assoc k props); [exact H|discriminate].
Qed.

Lemma descend_records segments : forall k node,
  recordsAlong (k :: segments) node = true ->
  descend (removelast (k :: segments)) node
  = Ok (Some (nodeAlong (removelast (k :: segments)) node))
  /\ prop (nodeAlong (removelast (k :: segments)) node)
       (List.last (k :: segments) "undefined")
     = nodeAlong (k :: segments) node
  /\ recordsAlong [] (nodeAlong (k :: segments) node) = true.
Proof.
  induction segments as [|k' r IH]; intros k node H;
    destruct (recordsAlong_object _ _ H) as [props ->];
    pose proof (recordsAlong_step _ _ _ H) as Hc.
  - simpl removelast. simpl List.last. cbn [descend nodeAlong].
    repeat split; auto.
  - destruct (IH k' _ Hc) as (Hd & Hp & Hn).
    change (removelast (k :: k' :: r)) with (k :: removelast (k' :: r)).
    change (List.last (k :: k' :: r) "undefined")
      with (List.last (k' :: r) "undefined").
    cbn [descend nodeAlong]. unfold get. cbn [isNullish mbind result_bind].
    rewrite (recordsAlong_truthy _ _ Hc). auto.
Qed.

Lemma getFieldState_records name state :
  throughRecords name state = true ->
  getFieldState name state = Ok (nodeAlong (segmentsOf name) state)
  /\ recordsAlong (segmentsOf name) state = true
  /\ segmentsOf name <> [].
Proof.
  unfold throughRecords, getFieldState, lastSegment.
  destruct (segmentsOf name) as [|k r]; [discriminate|]. intros H.
  destruct (descend_records r k state H) as (Hd & Hp & Hn).
  rewrite Hd. cbn [mbind result_bind]. unfold get.
  assert (Ht : isNullish (nodeAlong (removelast (k :: r)) state) = false).
  { destruct (nodeAlong (removelast (k :: r)) state); try reflexivity;
      rewrite <- Hp in Hn; discriminate. }
  rewrite Ht. cbn [mbind result_bind]. rewrite Hp.
  rewrite (recordsAlong_truthy _ _ Hn). auto.
Qed.

(** A raised flag at the end of a path through records stays raised. *)
Lemma nodeAlong_cleared touch segments : forall node,
  recordsAlong segments node = true ->
  prop (nodeAlong segments node) "_touched" = VBool true ->
  (segments <> [] ->
   prop (nodeAlong segments (clearErrors touch node)) "_touched" = VBool true)
  /\ prop (nodeAlong segments (clearField touch node)) "_touched"
     = VBool true.
Proof.
  induction segments as [|k r IH]; intros node H Ht;
    destruct (recordsAlong_object _ _ H) as [props ->].
  - split; [congruence|]. simpl nodeAlong in *.
    apply clearField_keeps_touched_of_records. exact Ht.
  - pose proof H as H'. simpl in H'. apply andb_prop in H' as [Hk H'].
    apply negb_true_iff in Hk.
    destruct (assoc k props) as [c|] eqn:Ha; [|discriminate].
    assert (Hc : prop (VObject props) k = c) by (simpl; rewrite Ha; auto).
    cbn [nodeAlong] in *. rewrite Hc in Ht.
    destruct (IH c H' Ht) as [_ IHf].
    assert (Hroot : prop (clearErrors touch (VObject props)) k
                    = clearField touch c).
    { rewrite clearErrors_unfold. simpl.
      rewrite assoc_clearFields, Ha by exact Hk. reflexivity. }
    assert (Hfield : prop (clearField touch (VObject props)) k
                     = clearField touch c).
    { destruct (clearField_object touch props) as (props' & -> & Hp').
      simpl. rewrite Hp' by exact Hk.
      rewrite assoc_clearFields, Ha by exact Hk. reflexivity. }
    rewrite Hroot, Hfield. split; [intros _|]; exact IHf.
Qed.

Lemma clearErrors_keeps_touched touch name state :
  throughRecords name state = true ->
  touchedAt name state = Ok (VBool true) ->
  touchedAt name (clearErrors touch state) = Ok (VBool true).
Proof.
  intros H Ht.
  destruct (getFieldState_records _ _ H) as (Hg & Hr & Hne).
  unfold touchedAt in *. rewrite Hg in Ht. cbn [mbind result_bind] in Ht.
  injection Ht as Ht.
  assert (H' : throughRecords name (clearErrors touch state) = true).
  { unfold throughRecords in *.
    destruct (segmentsOf name) as [|k r]; [discriminate|].
    apply recordsAlong_cleared. exact H. }
  destruct (getFieldState_records _ _ H') as (Hg' & _ & _).
  rewrite Hg'. cbn [mbind result_bind]. f_equal.
  apply (nodeAlong_cleared touch _ _ Hr Ht). exact Hne.
Qed.

(** X19.  On data the schema accepts, [validateForm] with any highlight
    keeps a raised [_touched]: a field whose path leads through records
    only (no array on the way or at its end) and that is touched before
    the call is touched after it. *)
Theorem validateForm_keeps_touched_of_record_fields
    config sch highlight form v name :
  validationSchema config = Some sch ->
  validateSync sch (contents (values form)) = Ok v ->
  throughRecords name (contents (state form)) = true ->
  touchedAt name (contents (state form)) = Ok (VBool true) ->
  touchedAt name (contents (state (validateForm config highlight form)))
  = Ok (VBool true).
Proof.
  intros Hs Hv Hp Ht. unfold validateForm, validate. rewrite Hs, Hv.
  cbn [state]. rewrite clearErrorsStore_contents.
  apply clearErrors_keeps_touched; assumption.
Qed.

Lemma validateForm_keeps_touched_of_record_fields_witness :
  touchedAt "title"
    (contents (state (validateForm lenientForm none touchedForm)))
  = Ok (VBool true).
Proof.
  exact (validateForm_keeps_touched_of_record_fields lenientForm
           (mkObjectSchema usersFields (fun data => Ok data)) none
           touchedForm (initialValues lenientForm) "title"
           eq_refl eq_refl eq_refl eq_refl).
Defined.
